(** * dbt generic test arguments migration: a shallow embedding

    The development follows [bin/migrate_test_arguments.py].  Parsed YAML
    documents are trees of scalars, sequences and insertion-ordered
    mappings; the Python operators the script applies to them ([in],
    subscripting, iteration, item assignment) are given with the
    exceptions they raise, so that the walker can be followed line by
    line.  The file system and the console are explicit state. *)

From Stdlib Require Import ZArith String Ascii List Bool Lia.
From stdpp Require Import base list strings gmap listset.

Open Scope string_scope.
Open Scope list_scope.
Set Warnings "-register-all,-clear-no-such-hyp".

(** ** Exceptions and the error monad *)

Inductive exn :=
| TypeError
| KeyError
| OSError
| YAMLError
| OtherException (name : string).

Inductive result (A : Type) :=
| Ok (a : A)
| Raise (e : exn).
Arguments Ok {A} a.
Arguments Raise {A} e.

#[global] Instance result_ret : MRet result := λ A a, Ok a.
#[global] Instance result_bind : MBind result := λ A B f m,
  match m with
  | Ok a => f a
  | Raise e => Raise e
  end.

Definition is_ok {A} (r : result A) : bool :=
  match r with Ok _ => true | Raise _ => false end.

(** ** Documents as the YAML loader delivers them *)

(** Scalars are also the keys of mappings.  Floats, timestamps and binary
    scalars are left out. *)
Inductive scalar :=
| SNone
| SBool (b : bool)
| SInt (z : Z)
| SStr (s : string).

Inductive value :=
| VScalar (a : scalar)
| VList (l : list value)
| VDict (d : list (scalar * value)).

Abbreviation VStr s := (VScalar (SStr s)).
Abbreviation VInt z := (VScalar (SInt z)).
Abbreviation VNone := (VScalar SNone).

#[global] Instance scalar_eq_dec : EqDecision scalar.
Proof. solve_decision. Defined.

(** A [dict] keeps its entries in insertion order. *)
Abbreviation dict := (list (scalar * value)).

(** Python's [==] on scalars: [bool] is a subtype of [int], so [True == 1];
    a string equals only the same string. *)
Definition scalar_eqb (a b : scalar) : bool :=
  match a, b with
  | SNone, SNone => true
  | SStr s, SStr t => String.eqb s t
  | SBool x, SBool y => Bool.eqb x y
  | SInt x, SInt y => Z.eqb x y
  | SBool x, SInt y => Z.eqb (Z.b2z x) y
  | SInt x, SBool y => Z.eqb x (Z.b2z y)
  | _, _ => false
  end.

(** [k in d] *)
Definition dict_contains (k : scalar) (d : dict) : bool :=
  existsb (λ kv, scalar_eqb kv.1 k) d.

(** [d[k]], [None] standing for the [KeyError] *)
Fixpoint dict_get (k : scalar) (d : dict) : option value :=
  match d with
  | [] => None
  | (k', v) :: d' => if scalar_eqb k' k then Some v else dict_get k d'
  end.

(** [d[k] = v]: an existing key keeps its place (and its first spelling),
    a new key goes last. *)
Fixpoint dict_set (k : scalar) (v : value) (d : dict) : dict :=
  match d with
  | [] => [(k, v)]
  | (k', v') :: d' =>
      if scalar_eqb k' k then (k', v) :: d' else (k', v') :: dict_set k v d'
  end.

(** [d.keys()] *)
Definition keys (d : dict) : list scalar := map fst d.

Definition has_key (s : string) (d : dict) : Prop := SStr s ∈ keys d.

(** The invariant of every Python [dict]: no two keys are equal. *)
Fixpoint dict_wf (d : dict) : bool :=
  match d with
  | [] => true
  | (k, _) :: d' => negb (dict_contains k d') && dict_wf d'
  end.

Fixpoint value_wf (v : value) : bool :=
  match v with
  | VScalar _ => true
  | VList l => forallb value_wf l
  | VDict d => dict_wf d && forallb (λ '(_, x), value_wf x) d
  end.

(** Truth value of an object ([if x], [not x]). *)
Definition truthy (v : value) : bool :=
  match v with
  | VScalar SNone => false
  | VScalar (SBool b) => b
  | VScalar (SInt z) => negb (Z.eqb z 0)
  | VScalar (SStr s) => negb (String.eqb s "")
  | VList l => negb (Nat.eqb (length l) 0)
  | VDict d => negb (Nat.eqb (length d) 0)
  end.

(** [needle in hay] on strings: substring search. *)
Fixpoint str_contains (needle hay : string) : bool :=
  String.prefix needle hay ||
  match hay with
  | EmptyString => false
  | String _ hay' => str_contains needle hay'
  end.

(** [x == s] for a string literal [s]. *)
Definition value_eq_str (s : string) (x : value) : bool :=
  match x with
  | VScalar (SStr t) => String.eqb t s
  | _ => false
  end.

(** [s in c] for a string [s]: key lookup in a mapping, element search in
    a sequence, substring search in a string, [TypeError] elsewhere. *)
Definition py_in (s : string) (c : value) : result bool :=
  match c with
  | VDict d => Ok (dict_contains (SStr s) d)
  | VList l => Ok (existsb (value_eq_str s) l)
  | VScalar (SStr t) => Ok (str_contains s t)
  | VScalar _ => Raise TypeError
  end.

(** [c[s]] for a string [s]: only a mapping can be subscripted by one. *)
Definition py_getitem (c : value) (s : string) : result value :=
  match c with
  | VDict d =>
      match dict_get (SStr s) d with
      | Some v => Ok v
      | None => Raise KeyError
      end
  | _ => Raise TypeError
  end.

(** [c[s] = v] for a string [s]. *)
Definition py_setitem (c : value) (s : string) (v : value) : result value :=
  match c with
  | VDict d => Ok (VDict (dict_set (SStr s) v d))
  | _ => Raise TypeError
  end.

(** [for x in c]: the elements of a sequence, the keys of a mapping, the
    characters of a string. *)
Definition py_iter (c : value) : result (list value) :=
  match c with
  | VList l => Ok l
  | VDict d => Ok (map (λ kv, VScalar kv.1) d)
  | VScalar (SStr s) =>
      Ok (map (λ ch, VStr (String ch EmptyString)) (list_ascii_of_string s))
  | VScalar _ => Raise TypeError
  end.

(** [x in S] for a set of strings [S]: the operand is hashed first. *)
Definition set_in (x : value) (S : listset string) : result bool :=
  match x with
  | VScalar (SStr s) => Ok (bool_decide (s ∈ S))
  | VScalar _ => Ok false
  | _ => Raise TypeError
  end.

(** The same test on a mapping key, which is always hashable. *)
Definition key_in (k : scalar) (S : listset string) : bool :=
  match k with
  | SStr s => bool_decide (s ∈ S)
  | _ => false
  end.

(** ** The known generic tests *)

Definition BUILTIN_GENERIC_TESTS : listset string :=
  {[ "unique"; "not_null"; "accepted_values"; "relationships" ]}.

Definition DBT_UTILS_TESTS : listset string :=
  {[ "dbt_utils.equal_rowcount"; "dbt_utils.fewer_rows_than";
     "dbt_utils.greater_rows_than"; "dbt_utils.expression_is_true";
     "dbt_utils.recency"; "dbt_utils.at_least_one";
     "dbt_utils.not_accepted_values"; "dbt_utils.relationships_where";
     "dbt_utils.mutually_exclusive_ranges"; "dbt_utils.sequential_values";
     "dbt_utils.unique_combination_of_columns";
     "dbt_utils.cardinality_equality"; "dbt_utils.equality";
     "dbt_utils.not_null_proportion"; "dbt_utils.not_constant";
     "dbt_utils.accepted_range"; "dbt_utils.not_empty_string" ]}.

Definition DBT_EXPECTATIONS_TESTS : listset string :=
  {[ "dbt_expectations.expect_column_values_to_be_unique";
     "dbt_expectations.expect_column_values_to_not_be_null";
     "dbt_expectations.expect_column_values_to_be_of_type";
     "dbt_expectations.expect_column_values_to_be_in_type_list";
     "dbt_expectations.expect_column_values_to_be_in_set";
     "dbt_expectations.expect_column_values_to_not_be_in_set";
     "dbt_expectations.expect_column_values_to_be_between";
     "dbt_expectations.expect_column_values_to_be_increasing";
     "dbt_expectations.expect_column_values_to_be_decreasing";
     "dbt_expectations.expect_column_value_lengths_to_be_between";
     "dbt_expectations.expect_column_value_lengths_to_equal";
     "dbt_expectations.expect_column_values_to_match_regex";
     "dbt_expectations.expect_column_values_to_not_match_regex";
     "dbt_expectations.expect_column_values_to_match_like_pattern";
     "dbt_expectations.expect_column_values_to_not_match_like_pattern";
     "dbt_expectations.expect_table_row_count_to_be_between";
     "dbt_expectations.expect_table_row_count_to_equal";
     "dbt_expectations.expect_table_column_count_to_be_between";
     "dbt_expectations.expect_table_column_count_to_equal";
     "dbt_expectations.expect_table_columns_to_match_ordered_list";
     "dbt_expectations.expect_table_columns_to_match_set";
     "dbt_expectations.expect_column_distinct_count_to_be_greater_than";
     "dbt_expectations.expect_column_distinct_count_to_equal";
     "dbt_expectations.expect_column_mean_to_be_between";
     "dbt_expectations.expect_column_median_to_be_between";
     "dbt_expectations.expect_column_quantile_values_to_be_between";
     "dbt_expectations.expect_column_stdev_to_be_between";
     "dbt_expectations.expect_column_sum_to_be_between";
     "dbt_expectations.expect_column_max_to_be_between";
     "dbt_expectations.expect_column_min_to_be_between" ]}.

Definition ALL_GENERIC_TESTS : listset string :=
  BUILTIN_GENERIC_TESTS ∪ DBT_UTILS_TESTS ∪ DBT_EXPECTATIONS_TESTS.

Definition config_keys : listset string :=
  {[ "config"; "name"; "description"; "tags"; "meta"; "arguments" ]}.

Definition reserved_keys : listset string :=
  {[ "config"; "name"; "description"; "tags"; "meta"; "test_name" ]}.

(** ** GenericTestMigrator: the pure methods *)

Definition is_generic_test (test_key : value) : result bool :=
  direct ← set_in test_key ALL_GENERIC_TESTS;
  if (direct : bool) then Ok true
  else
    dotted ← py_in "." test_key;
    if (dotted : bool) then Ok true
    else
      cfg ← set_in test_key config_keys;
      Ok (negb cfg).

Definition needs_migration (test_dict : value) : bool :=
  match test_dict with
  | VDict d =>
      if dict_contains (SStr "arguments") d then false
      else existsb (λ kv, negb (key_in kv.1 reserved_keys)) d
  | _ => false
  end.

(** The loop of [migrate_test_dict] over [test_dict.items()], with the two
    mappings it fills. *)
Fixpoint migrate_items (items : dict) (new_dict arguments : dict)
  : dict * dict :=
  match items with
  | [] => (new_dict, arguments)
  | (key, val) :: rest =>
      if key_in key reserved_keys
      then migrate_items rest (dict_set key val new_dict) arguments
      else migrate_items rest new_dict (dict_set key val arguments)
  end.

Definition migrate_test_dict (test_dict : value) : value :=
  if negb (needs_migration test_dict) then test_dict
  else
    match test_dict with
    | VDict d =>
        let '(new_dict, arguments) := migrate_items d [] [] in
        if truthy (VDict arguments)
        then VDict (dict_set (SStr "arguments") (VDict arguments) new_dict)
        else VDict new_dict
    | _ => test_dict
    end.

Definition is_dict (v : value) : bool :=
  match v with VDict _ => true | _ => false end.

(** One turn of the loop of [process_test_list]: the entry [test] and the
    two lists built so far. *)
Definition process_test (test : value)
    (migrated_tests migrated_test_names : list value)
  : result (list value * list value) :=
  match test with
  | VScalar (SStr _) => Ok (migrated_tests ++ [test], migrated_test_names)
  | VDict [(test_name, test_config)] =>
      generic ← is_generic_test (VScalar test_name);
      if (generic : bool) && is_dict test_config then
        if needs_migration test_config then
          let migrated_config := migrate_test_dict test_config in
          Ok (migrated_tests ++ [VDict [(test_name, migrated_config)]],
              migrated_test_names ++ [VScalar test_name])
        else Ok (migrated_tests ++ [test], migrated_test_names)
      else Ok (migrated_tests ++ [test], migrated_test_names)
  | VDict d =>
      if dict_contains (SStr "test_name") d then
        test_name ← py_getitem test "test_name";
        generic ← is_generic_test test_name;
        if (generic : bool) then
          if needs_migration test then
            let migrated_test := migrate_test_dict test in
            Ok (migrated_tests ++ [migrated_test],
                migrated_test_names ++ [test_name])
          else Ok (migrated_tests ++ [test], migrated_test_names)
        else Ok (migrated_tests ++ [test], migrated_test_names)
      else Ok (migrated_tests ++ [test], migrated_test_names)
  | _ => Ok (migrated_tests ++ [test], migrated_test_names)
  end.

Fixpoint process_tests (tests_list : list value)
    (migrated_tests migrated_test_names : list value)
  : result (list value * list value) :=
  match tests_list with
  | [] => Ok (migrated_tests, migrated_test_names)
  | test :: rest =>
      '(migrated_tests, migrated_test_names) ←
        process_test test migrated_tests migrated_test_names;
      process_tests rest migrated_tests migrated_test_names
  end.

Definition process_test_list (tests_list : list value)
  : result (list value * list value) :=
  process_tests tests_list [] [].

(** ** The document walker

    The script mutates the loaded document in place.  A document is a tree
    here (a YAML alias would make two places share one object), so an
    assignment inside a child is rendered by rebuilding the path to it:
    [write_back] stores the updated child under its key, [rebuild] puts
    updated elements back into the sequence they were iterated from.  The
    items of any other iterable are scalars, which nothing can mutate. *)

Definition write_back (node : value) (key : string) (child : value) : value :=
  match node with
  | VDict d => VDict (dict_set (SStr key) child d)
  | _ => node
  end.

Definition rebuild (container : value) (items : list value) : value :=
  match container with
  | VList _ => VList items
  | _ => container
  end.

(** [for x in items: body], threading the list of migrated names. *)
Fixpoint for_each (body : value → list value → result (value * list value))
    (items : list value) (all_migrated_tests : list value)
  : result (list value * list value) :=
  match items with
  | [] => Ok ([], all_migrated_tests)
  | x :: rest =>
      '(x', all_migrated_tests) ← body x all_migrated_tests;
      '(rest', all_migrated_tests) ← for_each body rest all_migrated_tests;
      Ok (x' :: rest', all_migrated_tests)
  end.

(** One turn of [for test_key in ['tests', 'data_tests']] on a resource,
    column or table. *)
Definition migrate_test_key (test_key : string) (node : value)
    (all_migrated_tests : list value) : result (value * list value) :=
  present ← py_in test_key node;
  if (present : bool) then
    tests ← py_getitem node test_key;
    match tests with
    | VList tests_list =>
        '(migrated_tests, migrated_names) ← process_test_list tests_list;
        node' ← py_setitem node test_key (VList migrated_tests);
        Ok (node', all_migrated_tests ++ migrated_names)
    | _ => Ok (node, all_migrated_tests)
    end
  else Ok (node, all_migrated_tests).

(** [if 'tests' in x or 'data_tests' in x: for test_key in ...]; the script
    repeats this block for resources, columns, tables and table columns. *)
Definition migrate_node_tests (node : value) (all_migrated_tests : list value)
  : result (value * list value) :=
  has_tests ← py_in "tests" node;
  has_any ← (if (has_tests : bool) then Ok true else py_in "data_tests" node);
  if (has_any : bool) then
    '(node, all_migrated_tests) ←
      migrate_test_key "tests" node all_migrated_tests;
    migrate_test_key "data_tests" node all_migrated_tests
  else Ok (node, all_migrated_tests).

(** [if 'columns' in x and isinstance(x['columns'], list): for column ...] *)
Definition migrate_columns (node : value) (all_migrated_tests : list value)
  : result (value * list value) :=
  has_columns ← py_in "columns" node;
  if (has_columns : bool) then
    columns ← py_getitem node "columns";
    match columns with
    | VList cols =>
        '(cols', all_migrated_tests) ←
          for_each migrate_node_tests cols all_migrated_tests;
        Ok (write_back node "columns" (VList cols'), all_migrated_tests)
    | _ => Ok (node, all_migrated_tests)
    end
  else Ok (node, all_migrated_tests).

Definition migrate_table (table : value) (all_migrated_tests : list value)
  : result (value * list value) :=
  '(table, all_migrated_tests) ← migrate_node_tests table all_migrated_tests;
  migrate_columns table all_migrated_tests.

(** [if resource_type == 'sources' and 'tables' in resource: ...] *)
Definition migrate_tables (resource_type : string) (resource : value)
    (all_migrated_tests : list value) : result (value * list value) :=
  if String.eqb resource_type "sources" then
    has_tables ← py_in "tables" resource;
    if (has_tables : bool) then
      tables ← py_getitem resource "tables";
      items ← py_iter tables;
      '(items', all_migrated_tests) ←
        for_each migrate_table items all_migrated_tests;
      Ok (write_back resource "tables" (rebuild tables items'),
          all_migrated_tests)
    else Ok (resource, all_migrated_tests)
  else Ok (resource, all_migrated_tests).

Definition migrate_resource (resource_type : string) (resource : value)
    (all_migrated_tests : list value) : result (value * list value) :=
  '(resource, all_migrated_tests) ←
    migrate_node_tests resource all_migrated_tests;
  '(resource, all_migrated_tests) ←
    migrate_columns resource all_migrated_tests;
  migrate_tables resource_type resource all_migrated_tests.

(** One turn of [for resource_type in [...]]. *)
Definition migrate_resource_type (resource_type : string) (content : value)
    (all_migrated_tests : list value) : result (value * list value) :=
  present ← py_in resource_type content;
  if (present : bool) then
    resources ← py_getitem content resource_type;
    items ← py_iter resources;
    '(items', all_migrated_tests) ←
      for_each (migrate_resource resource_type) items all_migrated_tests;
    Ok (write_back content resource_type (rebuild resources items'),
        all_migrated_tests)
  else Ok (content, all_migrated_tests).

Definition RESOURCE_TYPES : list string :=
  ["models"; "sources"; "seeds"; "snapshots"].

Fixpoint for_resource_types (types : list string) (content : value)
    (all_migrated_tests : list value) : result (value * list value) :=
  match types with
  | [] => Ok (content, all_migrated_tests)
  | resource_type :: rest =>
      '(content, all_migrated_tests) ←
        migrate_resource_type resource_type content all_migrated_tests;
      for_resource_types rest content all_migrated_tests
  end.

Definition process_yaml_content (content : value) (file_path : string)
  : result (value * list value) :=
  for_resource_types RESOURCE_TYPES content [].

(** ** Files, console and the migrator object *)

Record TestMigration := {
  file_path : string;
  test_name : string;
  arguments_moved : list value;
  line_number : option Z;
}.

Inductive event :=
| PrintParseWarning (file_path : string) (e : exn)
| PrintError (file_path : string) (e : exn)
| PrintMigrated (dry_run : bool) (count : nat) (file_path : string)
| PrintNoYamlFiles (models_dir : string)
| PrintFound (count : nat)
| PrintMode (dry_run : bool)
| PrintBlank
| PrintComplete
| PrintFilesProcessed (count : nat)
| PrintFilesMigrated (count : nat)
| PrintTotal (count : nat)
| PrintMigrationsHeader
| PrintMigration (file_path test_name : string)
| PrintMissingDir (models_dir : string)
| PrintHint.

(** What the script sees of its environment: the text of every readable
    file, the directories, the paths that cannot be opened for writing, and
    what has been printed so far; and the two ways output fails.
    [stdout_error so_far ev] is the exception [print] raises for the line
    [ev] after the lines [so_far] (a closed pipe, a character the console
    cannot encode).  [write_error file_path text] is the exception raised
    while [text] is written to the opened, hence truncated, file, with what
    the file is left holding. *)
Record world := {
  files : gmap string string;
  dirs : gset string;
  read_only : gset string;
  console : list event;
  stdout_error : list event → event → option exn;
  write_error : string → string → option (exn * string);
}.

Record GenericTestMigrator := {
  models_dir : string;
  dry_run : bool;
  migrations_performed : list TestMigration;
}.

Record state := {
  self : GenericTestMigrator;
  os : world;
}.

(** Computations that read and change the state and may raise; what was
    done before an exception stays done. *)
Definition io (A : Type) : Type := state → result A * state.

#[global] Instance io_ret : MRet io := λ A a st, (Ok a, st).
#[global] Instance io_bind : MBind io := λ A B f m st,
  match m st with
  | (Ok a, st') => f a st'
  | (Raise e, st') => (Raise e, st')
  end.

Definition lift {A} (r : result A) : io A := λ st, (r, st).

(** [try: body except Exception as e: handler] *)
Definition try_except {A} (body : io A) (handler : exn → io A) : io A :=
  λ st,
    match body st with
    | (Ok a, st') => (Ok a, st')
    | (Raise e, st') => handler e st'
    end.

Definition set_console (c : list event) (w : world) : world :=
  {| files := files w; dirs := dirs w; read_only := read_only w;
     console := c;
     stdout_error := stdout_error w; write_error := write_error w |}.

Definition set_files (f : gmap string string) (w : world) : world :=
  {| files := f; dirs := dirs w; read_only := read_only w;
     console := console w;
     stdout_error := stdout_error w; write_error := write_error w |}.

(** The three ways the script changes its state. *)
Definition printed (ev : event) (st : state) : state :=
  {| self := self st;
     os := set_console (console (os st) ++ [ev]) (os st) |}.

Definition recorded (m : TestMigration) (st : state) : state :=
  {| self := {| models_dir := models_dir (self st);
                dry_run := dry_run (self st);
                migrations_performed := migrations_performed (self st) ++ [m] |};
     os := os st |}.

Definition written (file_path text : string) (st : state) : state :=
  {| self := self st;
     os := set_files (<[file_path := text]> (files (os st))) (os st) |}.

(** [print(...)]: the line reaches the console, or the call raises and
    nothing is added. *)
Definition print (ev : event) : io unit := λ st,
  match stdout_error (os st) (console (os st)) ev with
  | Some e => (Raise e, st)
  | None => (Ok tt, printed ev st)
  end.

(** [open(file_path, 'r').read()]; a path that holds no readable file
    raises. *)
Definition read_text (file_path : string) : io string := λ st,
  match files (os st) !! file_path with
  | Some text => (Ok text, st)
  | None => (Raise OSError, st)
  end.

(** [with open(file_path, 'w') as f: f.write(text)]: when the file cannot
    be opened it stays as it was; once it is open its old content is gone,
    whether the write goes through or not. *)
Definition write_text (file_path text : string) : io unit := λ st,
  if bool_decide (file_path ∈ read_only (os st)) then (Raise OSError, st)
  else
    match write_error (os st) file_path text with
    | Some (e, remains) => (Raise e, written file_path remains st)
    | None => (Ok tt, written file_path text st)
    end.

(** [self.migrations_performed.append(migration)] *)
Definition append_migration (migration : TestMigration) : io unit := λ st,
  (Ok tt, recorded migration st).

Definition get_self : io GenericTestMigrator := λ st, (Ok (self st), st).

(** [print] where there is no migrator yet. *)
Definition print_line (ev : event) (w : world) : result unit * world :=
  match stdout_error w (console w) ev with
  | Some e => (Raise e, w)
  | None => (Ok tt, set_console (console w ++ [ev]) w)
  end.

(** [Path(p).exists()] *)
Definition path_exists (w : world) (p : string) : bool :=
  bool_decide (p ∈ dirs w) || bool_decide (p ∈ dom (files w)).

Section Driver.

(** The YAML library and the directory walker are outside the script. *)
Variable safe_load : string → result value.
Variable yaml_dump : value → string.
(** [", ".join(set(names))]: the order depends on the hash seed. *)
Variable join_set : list value → string.
(** [Path(dir).glob(pattern)] *)
Variable glob : world → string → string → list string.

Definition find_yaml_files : io (list string) := λ st,
  (Ok (glob (os st) (models_dir (self st)) "**/*.yml" ++
       glob (os st) (models_dir (self st)) "**/*.yaml"), st).

(** [TestMigration(file_path=..., test_name=..., arguments_moved=...)] *)
Definition report (file_path : string) (migrated_tests : list value)
  : TestMigration :=
  {| file_path := file_path;
     test_name := join_set migrated_tests;
     arguments_moved := migrated_tests;
     line_number := None |}.

(** The [try] block of [migrate_file]. *)
Definition migrate_file_body (file_path : string) : io bool :=
  original_content ← read_text file_path;
  match safe_load original_content with
  | Raise YAMLError =>
      print (PrintParseWarning file_path YAMLError);;
      mret false
  | loaded =>
      yaml_content ← lift loaded;
      if negb (truthy yaml_content) then mret false
      else
        '(migrated_content, migrated_tests) ←
          lift (process_yaml_content yaml_content file_path);
        if negb (truthy (VList migrated_tests)) then mret false
        else
          let migrated_yaml := yaml_dump migrated_content in
          let migration := report file_path migrated_tests in
          append_migration migration;;
          me ← get_self;
          (if dry_run me then mret tt
           else write_text file_path migrated_yaml);;
          print (PrintMigrated (dry_run me) (length migrated_tests)
                   file_path);;
          mret true
  end.

Definition migrate_file (file_path : string) : io bool :=
  try_except (migrate_file_body file_path)
    (λ e, print (PrintError file_path e);; mret false).

(** [for yaml_file in yaml_files: if self.migrate_file(yaml_file): ...] *)
Fixpoint migrate_files (yaml_files : list string) (migrated_count : nat)
  : io nat :=
  match yaml_files with
  | [] => mret migrated_count
  | yaml_file :: rest =>
      migrated ← migrate_file yaml_file;
      migrate_files rest
        (if (migrated : bool) then S migrated_count else migrated_count)
  end.

Fixpoint print_migrations (ms : list TestMigration) : io unit :=
  match ms with
  | [] => mret tt
  | m :: rest =>
      print (PrintMigration (file_path m) (test_name m));;
      print_migrations rest
  end.

Definition run_migration : io unit :=
  yaml_files ← find_yaml_files;
  me ← get_self;
  if Nat.eqb (length yaml_files) 0 then
    print (PrintNoYamlFiles (models_dir me))
  else
    print (PrintFound (length yaml_files));;
    print (PrintMode (dry_run me));;
    print PrintBlank;;
    migrated_count ← migrate_files yaml_files 0;
    print PrintBlank;;
    print PrintComplete;;
    print (PrintFilesProcessed (length yaml_files));;
    print (PrintFilesMigrated migrated_count);;
    me ← get_self;
    print (PrintTotal (length (migrations_performed me)));;
    if negb (Nat.eqb (length (migrations_performed me)) 0) then
      print PrintMigrationsHeader;;
      print_migrations (migrations_performed me)
    else mret tt.

(** [GenericTestMigrator(models_dir=..., dry_run=...)] *)
Definition new_migrator (dir : string) (dry : bool) : GenericTestMigrator :=
  {| models_dir := dir; dry_run := dry; migrations_performed := [] |}.

(** [main] after the command line is parsed; the exit status is 1 after
    [sys.exit(1)] or an exception nobody caught, 0 otherwise. *)
Definition main (args_models_dir : string) (args_dry_run : bool)
    (w : world) : Z * world :=
  if negb (path_exists w args_models_dir) then
    match print_line (PrintMissingDir args_models_dir) w with
    | (Ok _, w) => (1%Z, (print_line PrintHint w).2)
    | (Raise _, w) => (1%Z, w)
    end
  else
    let migrator := new_migrator args_models_dir args_dry_run in
    match run_migration {| self := migrator; os := w |} with
    | (Ok _, st) => (0%Z, os st)
    | (Raise _, st) => (1%Z, os st)
    end.

End Driver.

(** ** [migrate_test_dict] on mapping objects

    To see which objects the method writes to, the mappings it handles are
    put in a store, each under its identity: [test_dict] is read, [new_dict]
    and [arguments] are created and assigned to. *)

Definition new_object (σ : gmap nat dict) : nat * gmap nat dict :=
  let l := fresh (dom σ) in (l, <[l := []]> σ).

Definition object_setitem (l : nat) (k : scalar) (v : value)
    (σ : gmap nat dict) : gmap nat dict :=
  alter (dict_set k v) l σ.

Fixpoint migrate_items_in (items : dict) (new_dict arguments : nat)
    (σ : gmap nat dict) : gmap nat dict :=
  match items with
  | [] => σ
  | (key, val) :: rest =>
      if key_in key reserved_keys
      then migrate_items_in rest new_dict arguments
             (object_setitem new_dict key val σ)
      else migrate_items_in rest new_dict arguments
             (object_setitem arguments key val σ)
  end.

Definition migrate_test_dict_in (test_dict : nat) (σ : gmap nat dict)
  : option (nat * gmap nat dict) :=
  match σ !! test_dict with
  | None => None
  | Some d =>
      if negb (needs_migration (VDict d)) then Some (test_dict, σ)
      else
        let '(new_dict, σ) := new_object σ in
        let '(arguments, σ) := new_object σ in
        let σ := migrate_items_in d new_dict arguments σ in
        match σ !! arguments with
        | None => None
        | Some args =>
            if truthy (VDict args)
            then Some (new_dict,
                       object_setitem new_dict (SStr "arguments")
                         (VDict args) σ)
            else Some (new_dict, σ)
        end
  end.

(** The reserved keys, as keys. *)
Definition RESERVED : list scalar :=
  [SStr "config"; SStr "name"; SStr "description"; SStr "tags"; SStr "meta";
   SStr "test_name"].

(** ** Reading [process_test_list] entry by entry *)

(** What one turn of the loop adds for [test]: the entry appended to the
    output and the names recorded. *)
Definition process_entry (test : value) : result (value * list value) :=
  match process_test test [] [] with
  | Ok (test' :: _, names) => Ok (test', names)
  | Ok ([], names) => Ok (test, names)
  | Raise e => Raise e
  end.

(** The name position of an entry holds a string: the key of a single-key
    mapping, the [test_name] value of any other mapping that has one. *)
Definition is_str (x : value) : bool :=
  match x with VScalar (SStr _) => true | _ => false end.

Definition name_is_str (test : value) : bool :=
  match test with
  | VDict [(test_name, _)] => is_str (VScalar test_name)
  | VDict d =>
      match dict_get (SStr "test_name") d with
      | Some test_name => is_str test_name
      | None => true
      end
  | _ => true
  end.

(** The entry that replaces a migrated [test]. *)
Definition replacement (test : value) : value :=
  match test with
  | VDict [(test_name, test_config)] =>
      VDict [(test_name, migrate_test_dict test_config)]
  | _ => migrate_test_dict test
  end.

(** ** Vocabulary of the statements *)

(** The reserved fields of a mapping, and the others, each in the order of
    the mapping. *)
Definition kept_fields (d : dict) : dict := filter (λ kv, kv.1 ∈ RESERVED) d.
Definition moved_fields (d : dict) : dict := filter (λ kv, kv.1 ∉ RESERVED) d.

Definition only_reserved (d : dict) : Prop := ∀ k, k ∈ keys d → k ∈ RESERVED.

(** The classifier answers true (and does not raise). *)
Definition classifies_generic (x : value) : bool :=
  match is_generic_test x with Ok b => b | Raise _ => false end.

(** The turn of the loop for [test] appends [test] itself and no name. *)
Definition passes_through (test : value) : Prop :=
  ∀ mt mn, process_test test mt mn = Ok (mt ++ [test], mn).

(** The rule for a mapping [d] that is handled through its [test_name]
    value: restructured and recorded when that value classifies as generic
    and [d] needs migration, passed through otherwise. *)
Definition test_name_rule (d : dict) : Prop :=
  ∀ test_name, dict_get (SStr "test_name") d = Some test_name →
  ∀ mt mn,
    process_test (VDict d) mt mn =
      if classifies_generic test_name && needs_migration (VDict d)
      then Ok (mt ++ [migrate_test_dict (VDict d)], mn ++ [test_name])
      else Ok (mt ++ [VDict d], mn).

(** The entries said to be left alone: a bare string, a mapping with only
    reserved fields, a mapping of several keys without [test_name], a value
    that is neither a string nor a mapping. *)
Definition left_alone_shape (test : value) : Prop :=
  is_str test = true ∨
  (∃ d, test = VDict d ∧ only_reserved d) ∨
  (∃ d, test = VDict d ∧ 1 < length d ∧ ¬ has_key "test_name" d) ∨
  (is_str test = false ∧ is_dict test = false).

(** The same shapes with what the code needs of the name position. *)
Definition left_alone_shape_str (test : value) : Prop :=
  is_str test = true ∨
  (∃ d, test = VDict d ∧ only_reserved d ∧ length d ≠ 1 ∧
        name_is_str test = true) ∨
  (∃ k v, test = VDict [(k, v)] ∧ k ∈ RESERVED ∧
          (k = SStr "test_name" → needs_migration v = false)) ∨
  (∃ name f, test = VDict [(SStr name, VDict f)] ∧ only_reserved f) ∨
  (∃ d, test = VDict d ∧ length d ≠ 1 ∧ ¬ has_key "test_name" d) ∨
  (is_str test = false ∧ is_dict test = false).

(** Scenario A: the fields of an [accepted_values] declaration. *)
Definition scenario_A_fields : dict :=
  [(SStr "values", VList [VStr "a"; VStr "b"]);
   (SStr "config", VDict [(SStr "where", VStr "x")])].

(** Scenario C: a declaration carrying its own [test_name]. *)
Definition scenario_C : dict :=
  [(SStr "test_name", VStr "dbt_utils.equality");
   (SStr "compare_model", VStr "ref('other')")].

(** Declarations whose [test_name] is the integer 5. *)
Definition int_named : dict :=
  [(SStr "test_name", VInt 5); (SStr "compare_model", VStr "ref('other')")].

Definition int_named_reserved : dict :=
  [(SStr "test_name", VInt 5); (SStr "config", VDict [])].

(** ** The walker as a chain of steps under keys

    Each block of [process_yaml_content] reads the child under one key,
    processes it and stores the outcome under the same key.  The blocks are
    restated in that form to reason about running the walker twice. *)

Abbreviation step := (value → list value → result (value * list value)).

Definition at_key (key : string) (f : step) : step := λ node all,
  present ← py_in key node;
  if (present : bool) then
    child ← py_getitem node key;
    '(child', all) ← f child all;
    Ok (write_back node key child', all)
  else Ok (node, all).

Fixpoint chain (fs : list step) : step :=
  match fs with
  | [] => λ node all, Ok (node, all)
  | f :: rest => λ node all, '(node, all) ← f node all; chain rest node all
  end.

Definition chain_keys (kfs : list (string * step)) : step :=
  chain (map (λ kf, at_key kf.1 kf.2) kfs).

Definition tests_step : step := λ tests all,
  match tests with
  | VList tests_list =>
      '(migrated_tests, migrated_names) ← process_test_list tests_list;
      Ok (VList migrated_tests, all ++ migrated_names)
  | _ => Ok (tests, all)
  end.

Definition list_step (f : step) : step := λ container all,
  match container with
  | VList items =>
      '(items', all) ← for_each f items all; Ok (VList items', all)
  | _ => Ok (container, all)
  end.

Definition iter_step (f : step) : step := λ container all,
  items ← py_iter container;
  '(items', all) ← for_each f items all;
  Ok (rebuild container items', all).

(** [f] has nothing left to do on [x]. *)
Definition fixes (f : step) (x : value) : Prop :=
  ∀ all, f x all = Ok (x, all).

(** Whatever [f] makes of [x], it has nothing left to do on it. *)
Definition settles_at (f : step) (x : value) : Prop :=
  ∀ all x' all', f x all = Ok (x', all') → fixes f x'.

(** The blocks of the walker in that form. *)
Definition node_steps : list (string * step) :=
  [("tests", tests_step); ("data_tests", tests_step)].

Definition table_steps : list (string * step) :=
  node_steps ++ [("columns", list_step migrate_node_tests)].

Definition resource_steps (resource_type : string) : list (string * step) :=
  table_steps ++
  (if String.eqb resource_type "sources"
   then [("tables", iter_step migrate_table)] else []).

Definition content_steps : list (string * step) :=
  map (λ resource_type,
         (resource_type, iter_step (migrate_resource resource_type)))
      RESOURCE_TYPES.

(** Scenario A as an entry of a check list. *)
Definition good_declaration : value :=
  VDict [(SStr "accepted_values", VDict scenario_A_fields)].

(** A declaration that already has an [arguments] key, among its own keys
    or among the fields under its name. *)
Definition already_migrated (test : value) : Prop :=
  ∃ d, test = VDict d ∧
       (has_key "arguments" d ∨
        ∃ k f, d = [(k, VDict f)] ∧ has_key "arguments" f).

(** A document with three declarations: one to migrate, a bare name, one
    already migrated. *)
Definition migrated_declaration : value :=
  VDict [(SStr "test_name", VStr "dbt_utils.equality");
         (SStr "arguments",
          VDict [(SStr "compare_model", VStr "ref('other')")])].

Definition document_mixed : value :=
  VDict [(SStr "version", VInt 2);
         (SStr "models",
          VList [VDict [(SStr "name", VStr "orders");
                        (SStr "columns",
                         VList [VDict [(SStr "name", VStr "status");
                                       (SStr "tests",
                                        VList [good_declaration;
                                               VStr "not_null";
                                               migrated_declaration])]])]]);
         (SStr "sources",
          VList [VDict [(SStr "name", VStr "raw");
                        (SStr "tables",
                         VList [VDict [(SStr "name", VStr "events");
                                       (SStr "data_tests",
                                        VList [VDict scenario_C])]])]])].

(** ** Further vocabulary: names of entries, the helper of the test suite *)

(** The name position of a check-list entry, if it has one. *)
Definition entry_name (test : value) : option value :=
  match test with
  | VDict [(test_name, _)] => Some (VScalar test_name)
  | VDict d => dict_get (SStr "test_name") d
  | _ => None
  end.

(** [find_test] of [tests/test_migration.py]: the value under [test_name] in
    the first mapping of [test_list] that has this key, [None] if there is
    none. *)
Fixpoint find_test (test_list : list value) (test_name : string) : value :=
  match test_list with
  | [] => VNone
  | item :: rest =>
      if is_dict item &&
         match py_in test_name item with Ok b => b | Raise _ => false end
      then match py_getitem item test_name with
           | Ok v => v
           | Raise _ => VNone
           end
      else find_test rest test_name
  end.

(** No mapping of the list has the key [name]. *)
Definition no_key_in (name : string) (l : list value) : Prop :=
  Forall (λ x, ∀ d, x = VDict d → dict_contains (SStr name) d = false) l.

(** A step raises nothing but [TypeError]. *)
Definition raises_type_error_only (f : step) : Prop :=
  ∀ x all e, f x all = Raise e → e = TypeError.

(** A step only appends strings to the names, and without a new name it
    returns the node it was given. *)
Definition appends_names (f : step) : Prop :=
  ∀ x all x' all', f x all = Ok (x', all') →
    ∃ names, all' = all ++ names ∧
             Forall (λ n, is_str n = true) names ∧
             (names = [] → x' = x).

(** ** Places in a document *)

(** The value under a key of a mapping, the item at an index of a
    sequence. *)
Definition child (key : string) (x : value) : option value :=
  match x with VDict d => dict_get (SStr key) d | _ => None end.

Definition item (i : nat) (x : value) : option value :=
  match x with VList l => l !! i | _ => None end.

(** The two names a check list goes by. *)
Definition TEST_KEYS : list string := ["tests"; "data_tests"].

(** Every check list directly under [x] has been processed in [x']. *)
Definition lists_done (x x' : value) : Prop :=
  ∀ key tests_list, key ∈ TEST_KEYS →
    child key x = Some (VList tests_list) →
    ∃ out names, child key x' = Some (VList out) ∧
                 process_test_list tests_list = Ok (out, names).

(** ... and so has every check list of every column of [x]. *)
Definition columns_done (x x' : value) : Prop :=
  ∀ j column, child "columns" x ≫= item j = Some column →
    ∃ column', child "columns" x' ≫= item j = Some column' ∧
               lists_done column column'.

Definition table_done (x x' : value) : Prop :=
  lists_done x x' ∧ columns_done x x'.

(** ... and, for a source, every check list of its tables and of their
    columns. *)
Definition resource_done (resource_type : string) (x x' : value) : Prop :=
  table_done x x' ∧
  (resource_type = "sources" →
   ∀ j table, child "tables" x ≫= item j = Some table →
     ∃ table', child "tables" x' ≫= item j = Some table' ∧
               table_done table table').

(** ** Conditions on the environment *)

(** The console takes every line. *)
Definition console_reliable (w : world) : Prop :=
  ∀ so_far ev, stdout_error w so_far ev = None.

(** A file that could be opened is written in full. *)
Definition writes_reliable (w : world) : Prop :=
  ∀ file_path text, write_error w file_path text = None.

(** From [st] to [st'] the settings and the environment are what they were,
    no file was written with [dry_run] set, and only files among [paths]
    may have been written. *)
Definition touches (paths : list string) (st st' : state) : Prop :=
  dry_run (self st') = dry_run (self st) ∧
  models_dir (self st') = models_dir (self st) ∧
  dirs (os st') = dirs (os st) ∧
  read_only (os st') = read_only (os st) ∧
  stdout_error (os st') = stdout_error (os st) ∧
  write_error (os st') = write_error (os st) ∧
  (dry_run (self st) = true → files (os st') = files (os st)) ∧
  (∀ other, other ∉ paths →
            files (os st') !! other = files (os st) !! other).

(** ** Example documents and a small project *)

(** The state with the [dry_run] flag set to [b]. *)
Definition with_dry_run (b : bool) (st : state) : state :=
  {| self := {| models_dir := models_dir (self st); dry_run := b;
                migrations_performed := migrations_performed (self st) |};
     os := os st |}.

(** A document with one model carrying the given resource-level tests. *)
Definition model_with (tests : list value) : value :=
  VDict [(SStr "version", VInt 2);
         (SStr "models",
          VList [VDict [(SStr "name", VStr "orders");
                        (SStr "tests", VList tests)]])].

(** A declaration to migrate and, after it, a declaration whose [test_name]
    is the integer 5. *)
Definition document_int_test_name : value :=
  model_with [good_declaration; VDict int_named].

(** The same with a single-key declaration whose key is the integer 5. *)
Definition document_int_key : value :=
  model_with [good_declaration; VDict [(SInt 5, VDict scenario_A_fields)]].

Definition document_good : value := model_with [good_declaration].

(** A project with one schema file, and stand-ins for the YAML library
    that load a fixed document. *)
Definition demo_world : world :=
  {| files := {[ "models/schema.yml" := "models: ..." ]};
     dirs := {[ "models" ]};
     read_only := ∅;
     console := [];
     stdout_error := λ _ _, None;
     write_error := λ _ _, None |}.


Definition full_disk_world : world :=
  {| files := files demo_world; dirs := dirs demo_world;
     read_only := ∅; console := [];
     stdout_error := λ _ _, None;
     write_error := λ _ _, Some (OSError, "") |}.

(** Declarations that have an [arguments] key and the integer 5 where the
    name is read. *)
Definition int_named_migrated : value :=
  VDict [(SStr "test_name", VInt 5);
         (SStr "arguments",
          VDict [(SStr "compare_model", VStr "ref('other')")])].

Definition int_key_migrated : value :=
  VDict [(SInt 5,
          VDict [(SStr "arguments",
                  VDict [(SStr "values", VList [VStr "a"; VStr "b"])])])].

Definition demo_state (dry : bool) : state :=
  {| self := {| models_dir := "models"; dry_run := dry;
                migrations_performed := [] |};
     os := demo_world |}.

Definition load_as (content : value) : string → result value :=
  λ _, Ok content.

Definition dump_stub : value → string := λ _, "models: migrated".

Definition join_stub : list value → string := λ _, "accepted_values".

Definition glob_stub : world → string → string → list string :=
  λ _ _ pattern,
    if String.eqb pattern "**/*.yml" then ["models/schema.yml"] else [].

(** A loader for the small project: the dumped text loads as the migrated
    document, any other text as the document to migrate. *)
Definition document_good_migrated : value :=
  match process_yaml_content document_good "models/schema.yml" with
  | Ok (migrated, _) => migrated
  | Raise _ => VNone
  end.

Definition load_demo : string → result value :=
  λ text,
    if String.eqb text "models: migrated" then Ok document_good_migrated
    else Ok document_good.

(** * Properties *)

Lemma Ok_inj {A} (a b : A) : Ok a = Ok b → a = b.
Proof. by intros [= ->]. Qed.

(** ** Keys and ordered mappings *)

Lemma scalar_eqb_str (k : scalar) (s : string) :
  scalar_eqb k (SStr s) = true ↔ k = SStr s.
Proof.
  destruct k as [| b | z | t]; simpl; try (split; [discriminate | congruence]).
  rewrite String.eqb_eq. split; congruence.
Qed.

Lemma scalar_eqb_sym (a b : scalar) : scalar_eqb a b = scalar_eqb b a.
Proof.
  destruct a, b; simpl; try reflexivity.
  - by destruct b0, b.
  - apply Z.eqb_sym.
  - apply Z.eqb_sym.
  - apply Z.eqb_sym.
  - apply String.eqb_sym.
Qed.

Lemma scalar_eqb_refl (a : scalar) : scalar_eqb a a = true.
Proof.
  destruct a as [| [] | z | s]; simpl;
    auto using Z.eqb_refl, String.eqb_refl.
Qed.

Lemma key_in_str (k : scalar) (S : listset string) :
  key_in k S = true → ∃ s, k = SStr s ∧ s ∈ S.
Proof.
  destruct k; simpl; try discriminate.
  intros H. apply bool_decide_eq_true in H. eauto.
Qed.

Lemma dict_contains_app (k : scalar) (d1 d2 : dict) :
  dict_contains k (d1 ++ d2) = dict_contains k d1 || dict_contains k d2.
Proof. unfold dict_contains. apply existsb_app. Qed.

Lemma dict_contains_false (k : scalar) (d : dict) :
  dict_contains k d = false ↔ ∀ kv, kv ∈ d → scalar_eqb kv.1 k = false.
Proof.
  unfold dict_contains. induction d as [| kv d IH]; simpl.
  - split; [intros _ kv H; inversion H | reflexivity].
  - rewrite orb_false_iff, IH. split.
    + intros [H1 H2] kv' Hin. apply elem_of_cons in Hin as [-> | Hin]; auto.
    + intros H. split; [apply H; left | intros kv' Hin; apply H; by right].
Qed.

Lemma dict_set_fresh (k : scalar) (v : value) (d : dict) :
  dict_contains k d = false → dict_set k v d = d ++ [(k, v)].
Proof.
  unfold dict_contains. induction d as [| [k' v'] d IH]; simpl; [done |].
  intros H. apply orb_false_iff in H as [H1 H2].
  rewrite H1. by rewrite IH.
Qed.

Lemma dict_get_set (k : scalar) (v : value) (d : dict) :
  dict_get k (dict_set k v d) = Some v.
Proof.
  induction d as [| [k' v'] d IH]; simpl.
  - by rewrite scalar_eqb_refl.
  - destruct (scalar_eqb k' k) eqn:E; simpl; by rewrite E.
Qed.

Lemma dict_contains_set (k : scalar) (v : value) (d : dict) :
  dict_contains k (dict_set k v d) = true.
Proof.
  unfold dict_contains. induction d as [| [k' v'] d IH]; simpl.
  - by rewrite scalar_eqb_refl.
  - destruct (scalar_eqb k' k) eqn:E; simpl; rewrite E; simpl; auto.
Qed.

Lemma dict_contains_get (k : scalar) (d : dict) :
  dict_contains k d = true ↔ is_Some (dict_get k d).
Proof.
  unfold dict_contains. induction d as [| [k' v'] d IH]; simpl.
  - split; [discriminate | intros [? ?]; discriminate].
  - destruct (scalar_eqb k' k); simpl; [split; eauto | exact IH].
Qed.

Lemma dict_set_same (k : scalar) (v : value) (d : dict) :
  dict_get k d = Some v → dict_set k v d = d.
Proof.
  induction d as [| [k' v'] d IH]; simpl; [discriminate |].
  destruct (scalar_eqb k' k).
  - congruence.
  - intros H. by rewrite IH.
Qed.

Lemma dict_set_set (k : scalar) (v w : value) (d : dict) :
  dict_set k w (dict_set k v d) = dict_set k w d.
Proof.
  induction d as [| [k' v'] d IH]; simpl.
  - by rewrite scalar_eqb_refl.
  - destruct (scalar_eqb k' k) eqn:E; simpl; rewrite E; [done | by rewrite IH].
Qed.

(** Assigning under one string key leaves every other string key alone. *)
Lemma dict_get_set_other (s t : string) (v : value) (d : dict) :
  s ≠ t → dict_get (SStr t) (dict_set (SStr s) v d) = dict_get (SStr t) d.
Proof.
  intros Hne. induction d as [| [k' v'] d IH]; simpl.
  - destruct (String.eqb s t) eqn:E; [apply String.eqb_eq in E; done | done].
  - destruct (scalar_eqb k' (SStr s)) eqn:E; simpl.
    + apply scalar_eqb_str in E as ->. simpl.
      destruct (String.eqb s t) eqn:E'; [apply String.eqb_eq in E'; done | done].
    + by rewrite IH.
Qed.

Lemma dict_contains_set_other (s t : string) (v : value) (d : dict) :
  s ≠ t →
  dict_contains (SStr t) (dict_set (SStr s) v d) = dict_contains (SStr t) d.
Proof.
  intros Hne.
  destruct (dict_contains (SStr t) d) eqn:E.
  - apply dict_contains_get. rewrite dict_get_set_other by done.
    by apply dict_contains_get.
  - destruct (dict_contains (SStr t) (dict_set (SStr s) v d)) eqn:E'; [| done].
    apply dict_contains_get in E'. rewrite dict_get_set_other in E' by done.
    apply dict_contains_get in E'. congruence.
Qed.

(** ** The classifier *)

Lemma str_contains_dot (s : string) :
  str_contains "." s = true ↔ "."%char ∈ list_ascii_of_string s.
Proof.
  induction s as [| c s IH].
  - simpl. split; [discriminate | intros H; inversion H].
  - change (str_contains "." (String c s))
      with (String.prefix "." (String c s) || str_contains "." s).
    change (list_ascii_of_string (String c s))
      with (c :: list_ascii_of_string s).
    rewrite elem_of_cons, <- IH. cbn [String.prefix].
    destruct (Ascii.ascii_dec "." c) as [<- | Hne].
    + assert (String.prefix "" s = true) as -> by (by destruct s).
      split; auto.
    + simpl. split; [by right | intros [? | ?]; [congruence | done]].
Qed.

Lemma is_generic_test_not_string (x : value) :
  (∀ s, x ≠ VStr s) → is_generic_test x = Raise TypeError.
Proof.
  intros H. destruct x as [[| b | z | s] | l | d]; try reflexivity.
  by destruct (H s).
Qed.

Lemma is_generic_test_str (s : string) :
  is_generic_test (VStr s) =
    Ok (bool_decide (s ∈ ALL_GENERIC_TESTS) || str_contains "." s ||
        negb (bool_decide (s ∈ config_keys))).
Proof.
  unfold is_generic_test. simpl.
  destruct (bool_decide (s ∈ ALL_GENERIC_TESTS)); [done |]. simpl.
  by destruct (str_contains "." s).
Qed.

Lemma config_keys_spec (s : string) :
  s ∈ config_keys ↔
  s ∈ ["config"; "name"; "description"; "tags"; "meta"; "arguments"].
Proof. unfold config_keys. set_solver. Qed.

Lemma reserved_keys_spec (s : string) :
  s ∈ reserved_keys ↔
  s ∈ ["config"; "name"; "description"; "tags"; "meta"; "test_name"].
Proof. unfold reserved_keys. set_solver. Qed.

(** C2.  On every string the classifier returns; it answers true on the
    built-in and package names and on every name with a dot, and it answers
    false exactly on the six structural keys. *)
Theorem is_generic_test_classifies (s : string) :
  (∃ b, is_generic_test (VStr s) = Ok b) ∧
  (s ∈ BUILTIN_GENERIC_TESTS ∪ DBT_UTILS_TESTS ∪ DBT_EXPECTATIONS_TESTS →
   is_generic_test (VStr s) = Ok true) ∧
  ("."%char ∈ list_ascii_of_string s → is_generic_test (VStr s) = Ok true) ∧
  (is_generic_test (VStr s) = Ok false ↔
   s ∈ ["config"; "name"; "description"; "tags"; "meta"; "arguments"]).
Proof.
  rewrite is_generic_test_str.
  split; [| split; [| split; [| split]]].
  - eauto.
  - intros H. fold ALL_GENERIC_TESTS in H.
    by rewrite (bool_decide_eq_true_2 _ H).
  - intros H. apply str_contains_dot in H. rewrite H.
    by rewrite orb_true_r.
  - intros H. apply Ok_inj in H.
    apply orb_false_iff in H as [_ H]. apply negb_false_iff in H.
    apply bool_decide_eq_true in H. by apply config_keys_spec.
  - intros H. f_equal.
    repeat (apply elem_of_cons in H as [-> | H]; [by vm_compute |]).
    inversion H.
Qed.

(** ** The migration-needed predicate *)


Lemma key_in_reserved (k : scalar) :
  key_in k reserved_keys = true ↔ k ∈ RESERVED.
Proof.
  split.
  - intros H. apply key_in_str in H as (s & -> & H).
    apply reserved_keys_spec in H. unfold RESERVED.
    repeat (apply elem_of_cons in H as [-> | H];
            [apply list_elem_of_In; simpl; auto 10 |]).
    inversion H.
  - intros H. unfold RESERVED in H.
    repeat (apply elem_of_cons in H as [-> | H]; [by vm_compute |]).
    inversion H.
Qed.

Lemma key_in_reserved_false (k : scalar) :
  key_in k reserved_keys = false ↔ k ∉ RESERVED.
Proof.
  rewrite <- key_in_reserved. by destruct (key_in k reserved_keys).
Qed.

Lemma dict_contains_keys (s : string) (d : dict) :
  dict_contains (SStr s) d = true ↔ has_key s d.
Proof.
  unfold dict_contains, has_key, keys. rewrite existsb_exists, list_elem_of_fmap.
  split.
  - intros ([k v] & Hin & Heq). apply scalar_eqb_str in Heq. simpl in Heq.
    subst. exists (SStr s, v). split; [done | by apply list_elem_of_In].
  - intros ([k v] & Heq & Hin). simpl in Heq. subst k.
    exists (SStr s, v). split; [by apply list_elem_of_In |].
    by apply scalar_eqb_str.
Qed.

Lemma needs_migration_iff (x : value) :
  needs_migration x = true ↔
  ∃ d, x = VDict d ∧ ¬ has_key "arguments" d ∧ ∃ k, k ∈ keys d ∧ k ∉ RESERVED.
Proof.
  split.
  - destruct x as [a | l | d]; simpl; try discriminate.
    destruct (dict_contains (SStr "arguments") d) eqn:E; [discriminate |].
    intros H. exists d. split; [done |]. split.
    + intros Hin. apply dict_contains_keys in Hin. congruence.
    + apply existsb_exists in H as ([k v] & Hin & Hk). simpl in Hk.
      exists k. split.
      * unfold keys. apply list_elem_of_fmap. exists (k, v). split; [done |].
        by apply list_elem_of_In.
      * apply key_in_reserved_false. by apply negb_true_iff.
  - intros (d & -> & Hargs & k & Hin & Hk). simpl.
    destruct (dict_contains (SStr "arguments") d) eqn:E.
    + apply dict_contains_keys in E. done.
    + apply existsb_exists. unfold keys in Hin.
      apply list_elem_of_fmap in Hin as ([k' v] & -> & Hin).
      exists (k', v). split; [by apply list_elem_of_In |].
      apply negb_true_iff. by apply key_in_reserved_false.
Qed.

(** C3.  [needs_migration] is false off mappings and on a mapping with an
    [arguments] key; otherwise it is true when some key is not reserved and
    false when every key is reserved (the empty mapping included). *)
Theorem needs_migration_cases (x : value) :
  ((∀ d, x ≠ VDict d) → needs_migration x = false) ∧
  (∀ d, x = VDict d → has_key "arguments" d → needs_migration x = false) ∧
  (∀ d, x = VDict d → ¬ has_key "arguments" d →
        (∃ k, k ∈ keys d ∧ k ∉ RESERVED) → needs_migration x = true) ∧
  (∀ d, x = VDict d → ¬ has_key "arguments" d →
        (∀ k, k ∈ keys d → k ∈ RESERVED) → needs_migration x = false).
Proof.
  split; [| split; [| split]].
  - intros H. destruct x as [a | l | d]; try done. by destruct (H d).
  - intros d -> Hin. apply not_true_is_false. intros H.
    apply needs_migration_iff in H as (d' & [= <-] & Hn & _). done.
  - intros d -> Hn Hk. apply needs_migration_iff. eauto.
  - intros d -> Hn Hall. apply not_true_is_false. intros H.
    apply needs_migration_iff in H as (d' & [= <-] & _ & k & Hin & Hk).
    apply Hk, Hall, Hin.
Qed.

(** ** The restructurer *)

Lemma kept_moved_perm (d : dict) : d ≡ₚ kept_fields d ++ moved_fields d.
Proof.
  unfold kept_fields, moved_fields. induction d as [| kv d IH]; [done |].
  rewrite !filter_cons. destruct (decide (kv.1 ∈ RESERVED)).
  - rewrite decide_False by tauto. simpl. by f_equiv.
  - rewrite decide_True by done. rewrite <- Permutation_middle. by f_equiv.
Qed.

Lemma migrate_items_unique (d : dict) : ∀ new_dict arguments,
  dict_wf d = true →
  (∀ kv, kv ∈ d → dict_contains kv.1 new_dict = false ∧
                   dict_contains kv.1 arguments = false) →
  migrate_items d new_dict arguments =
    (new_dict ++ kept_fields d, arguments ++ moved_fields d).
Proof.
  unfold kept_fields, moved_fields.
  induction d as [| [k v] d IH]; intros nd args Hwf Hfresh; simpl.
  - by rewrite !app_nil_r.
  - simpl in Hwf. apply andb_true_iff in Hwf as [Hk Hwf].
    apply negb_true_iff in Hk.
    destruct (Hfresh (k, v)) as [Hnd Hargs]; [left |]. simpl in *.
    assert (Hrest : ∀ kv, kv ∈ d → scalar_eqb k kv.1 = false).
    { intros kv Hin. rewrite scalar_eqb_sym.
      eapply dict_contains_false in Hk; eauto. }
    rewrite !filter_cons. simpl.
    destruct (key_in k reserved_keys) eqn:E.
    + apply key_in_reserved in E.
      rewrite decide_True, decide_False by tauto.
      rewrite IH; [| done |].
      * rewrite dict_set_fresh by done. by rewrite <- app_assoc.
      * intros kv Hin. destruct (Hfresh kv) as [H1 H2]; [by right |].
        split; [| done]. rewrite dict_set_fresh by done.
        rewrite dict_contains_app, H1. simpl.
        by rewrite Hrest.
    + apply key_in_reserved_false in E.
      rewrite decide_False, decide_True by done.
      rewrite IH; [| done |].
      * rewrite dict_set_fresh by done. by rewrite <- app_assoc.
      * intros kv Hin. destruct (Hfresh kv) as [H1 H2]; [by right |].
        split; [done |]. rewrite dict_set_fresh by done.
        rewrite dict_contains_app, H2. simpl.
        by rewrite Hrest.
Qed.

Lemma kept_fields_no_arguments (d : dict) :
  dict_contains (SStr "arguments") (kept_fields d) = false.
Proof.
  apply dict_contains_false. intros [k v] Hin.
  apply list_elem_of_filter in Hin as [Hk _]. simpl in *.
  destruct (scalar_eqb k (SStr "arguments")) eqn:E; [| done].
  apply scalar_eqb_str in E as ->. apply key_in_reserved in Hk.
  by vm_compute in Hk.
Qed.

Lemma moved_fields_nonempty (d : dict) :
  needs_migration (VDict d) = true → truthy (VDict (moved_fields d)) = true.
Proof.
  intros H. apply needs_migration_iff in H as (d' & [= <-] & _ & k & Hin & Hk).
  unfold keys in Hin. apply list_elem_of_fmap in Hin as (kv & -> & Hin).
  assert (kv ∈ moved_fields d) as Hm by (by apply list_elem_of_filter).
  simpl. by destruct (moved_fields d); [inversion Hm |].
Qed.

Lemma migrate_test_dict_unique (d : dict) :
  dict_wf d = true → needs_migration (VDict d) = true →
  migrate_test_dict (VDict d) =
    VDict (kept_fields d ++ [(SStr "arguments", VDict (moved_fields d))]).
Proof.
  intros Hwf Hneed. unfold migrate_test_dict. rewrite Hneed. simpl negb.
  cbv iota. rewrite migrate_items_unique by done. simpl app.
  rewrite moved_fields_nonempty by done.
  by rewrite dict_set_fresh by apply kept_fields_no_arguments.
Qed.

Lemma migrate_items_in_lookup (items : dict) :
  ∀ (new_dict arguments : nat) (σ : gmap nat dict) (dn da : dict),
  new_dict ≠ arguments →
  σ !! new_dict = Some dn → σ !! arguments = Some da →
  migrate_items_in items new_dict arguments σ !! new_dict =
    Some (migrate_items items dn da).1 ∧
  migrate_items_in items new_dict arguments σ !! arguments =
    Some (migrate_items items dn da).2 ∧
  ∀ l, l ≠ new_dict → l ≠ arguments →
       migrate_items_in items new_dict arguments σ !! l = σ !! l.
Proof.
  induction items as [| [k v] items IH]; intros nd args σ dn da Hne Hn Ha;
    simpl.
  - done.
  - unfold object_setitem. destruct (key_in k reserved_keys).
    + destruct (IH nd args (alter (dict_set k v) nd σ) (dict_set k v dn) da)
        as (H1 & H2 & H3); [done | | |].
      * by rewrite lookup_alter_eq, Hn.
      * by rewrite lookup_alter_ne.
      * split; [done |]. split; [done |]. intros l Hl1 Hl2.
        rewrite H3 by done. by rewrite lookup_alter_ne.
    + destruct (IH nd args (alter (dict_set k v) args σ) dn (dict_set k v da))
        as (H1 & H2 & H3); [done | | |].
      * by rewrite lookup_alter_ne.
      * by rewrite lookup_alter_eq, Ha.
      * split; [done |]. split; [done |]. intros l Hl1 Hl2.
        rewrite H3 by done. by rewrite lookup_alter_ne.
Qed.

(** C1.  A mapping [d] (an object [l] of the store) that needs migration:
    the result is a new object holding the reserved fields of [d] in their
    order, then one [arguments] key with the other fields in their order;
    the two parts together are the fields of [d], each once; no object that
    existed before the call, [d] among them, is changed. *)
Theorem migrate_test_dict_restructures
    (σ : gmap nat dict) (l : nat) (d : dict) :
  σ !! l = Some d →
  dict_wf d = true →
  needs_migration (VDict d) = true →
  let migrated :=
    kept_fields d ++ [(SStr "arguments", VDict (moved_fields d))] in
  migrate_test_dict (VDict d) = VDict migrated ∧
  d ≡ₚ kept_fields d ++ moved_fields d ∧
  ∃ l' σ',
    migrate_test_dict_in l σ = Some (l', σ') ∧
    (l' ∉ dom σ) ∧
    σ' !! l' = Some migrated ∧
    ∀ l0, l0 ∈ dom σ → σ' !! l0 = σ !! l0.
Proof.
  intros Hl Hwf Hneed migrated. subst migrated.
  split; [by apply migrate_test_dict_unique |].
  split; [apply kept_moved_perm |].
  unfold migrate_test_dict_in. rewrite Hl, Hneed. simpl negb. cbv iota.
  unfold new_object.
  set (nd := fresh (dom σ)).
  set (σ1 := <[nd := []]> σ).
  set (args := fresh (dom σ1)).
  set (σ2 := <[args := []]> σ1).
  assert (Hnd : nd ∉ dom σ) by apply is_fresh.
  assert (Hargs : args ∉ dom σ1) by apply is_fresh.
  assert (Hne : nd ≠ args).
  { intros <-. apply Hargs. apply elem_of_dom. subst σ1.
    rewrite lookup_insert_eq. eauto. }
  assert (Hold : ∀ l0, l0 ∈ dom σ → l0 ≠ nd ∧ l0 ≠ args).
  { intros l0 Hin. split; [by intros -> |].
    intros ->. apply Hargs. subst σ1. rewrite dom_insert. set_solver. }
  destruct (migrate_items_in_lookup d nd args σ2 [] []) as (H1 & H2 & H3).
  - done.
  - subst σ2 σ1. rewrite lookup_insert_ne by done. apply lookup_insert_eq.
  - subst σ2. apply lookup_insert_eq.
  - rewrite migrate_items_unique in H1, H2 by done. simpl in H1, H2.
    rewrite H2. rewrite moved_fields_nonempty by done.
    eexists nd, _. split; [reflexivity |]. split; [done |]. split.
    + unfold object_setitem. rewrite lookup_alter_eq, H1. simpl.
      by rewrite dict_set_fresh by apply kept_fields_no_arguments.
    + intros l0 Hin. destruct (Hold l0 Hin) as [Hn Ha].
      unfold object_setitem. rewrite lookup_alter_ne by done.
      rewrite H3 by done. subst σ2 σ1.
      by rewrite !lookup_insert_ne by done.
Qed.

Lemma migrate_test_dict_restructures_witness :
  migrate_test_dict (VDict scenario_A_fields) =
    VDict [(SStr "config", VDict [(SStr "where", VStr "x")]);
           (SStr "arguments",
            VDict [(SStr "values", VList [VStr "a"; VStr "b"])])] ∧
  ∃ l' σ',
    migrate_test_dict_in 0 {[ 0 := scenario_A_fields ]} = Some (l', σ') ∧
    σ' !! 0 = Some scenario_A_fields.
Proof.
  destruct (migrate_test_dict_restructures
              {[ 0 := scenario_A_fields ]} 0 scenario_A_fields)
    as (H1 & _ & l' & σ' & H2 & _ & _ & H3);
    [reflexivity | reflexivity | reflexivity |].
  split; [exact H1 |].
  exists l', σ'. split; [exact H2 |].
  rewrite H3; [reflexivity |]. rewrite dom_singleton. set_solver.
Defined.

(** ** The check-list processor *)

#[local] Arguments is_generic_test : simpl never.
#[local] Arguments needs_migration : simpl never.
#[local] Arguments migrate_test_dict : simpl never.
#[local] Arguments dict_contains : simpl never.
#[local] Arguments dict_get : simpl never.
#[local] Arguments py_getitem : simpl never.

Lemma process_test_entry (test : value) (mt mn : list value) :
  process_test test mt mn =
    '(test', names) ← process_entry test; Ok (mt ++ [test'], mn ++ names).
Proof.
  unfold process_entry, process_test.
  destruct test as [[| b | z | s] | l | d]; simpl; rewrite ?app_nil_r; try done.
  destruct d as [| [k v] [| kv d]]; simpl; rewrite ?app_nil_r; try done.
  - destruct (is_generic_test (VScalar k)) as [[] |]; simpl;
      rewrite ?app_nil_r; try done.
    destruct (is_dict v); simpl; rewrite ?app_nil_r; try done.
    destruct (needs_migration v); simpl; rewrite ?app_nil_r; done.
  - destruct (dict_contains _ _); simpl; rewrite ?app_nil_r; try done.
    destruct (py_getitem _ _) as [x |]; simpl; rewrite ?app_nil_r; try done.
    destruct (is_generic_test x) as [[] |]; simpl; rewrite ?app_nil_r;
      try done.
    destruct (needs_migration _); simpl; rewrite ?app_nil_r; done.
Qed.

Lemma process_entry_unfold (test : value) :
  process_entry test =
    match test with
    | VDict [(test_name, test_config)] =>
        generic ← is_generic_test (VScalar test_name);
        if (generic : bool) && is_dict test_config &&
           needs_migration test_config
        then Ok (VDict [(test_name, migrate_test_dict test_config)],
                 [VScalar test_name])
        else Ok (test, [])
    | VDict d =>
        if dict_contains (SStr "test_name") d then
          test_name ← py_getitem test "test_name";
          generic ← is_generic_test test_name;
          if (generic : bool) && needs_migration test
          then Ok (migrate_test_dict test, [test_name])
          else Ok (test, [])
        else Ok (test, [])
    | _ => Ok (test, [])
    end.
Proof.
  unfold process_entry, process_test.
  destruct test as [[| b | z | s] | l | d]; simpl; try done.
  destruct d as [| [k v] [| kv d]]; simpl; try done.
  - destruct (is_generic_test (VScalar k)) as [[] |]; simpl; try done.
    destruct (is_dict v); simpl; try done.
    by destruct (needs_migration v).
  - destruct (dict_contains _ _); simpl; try done.
    destruct (py_getitem _ _) as [x |]; simpl; try done.
    destruct (is_generic_test x) as [[] |]; simpl; try done.
    by destruct (needs_migration _).
Qed.

Lemma is_generic_test_ok (x : value) :
  is_ok (is_generic_test x) = is_str x.
Proof.
  destruct x as [[| b | z | s] | l | d]; try reflexivity.
  by rewrite is_generic_test_str.
Qed.

Lemma is_generic_test_raise (x : value) (e : exn) :
  is_generic_test x = Raise e → e = TypeError.
Proof.
  destruct (is_str x) eqn:E.
  - destruct x as [[| b | z | s] | l | d]; try discriminate.
    by rewrite is_generic_test_str.
  - rewrite is_generic_test_not_string; [congruence |].
    by intros s ->.
Qed.

Lemma py_getitem_contains (s : string) (d : dict) :
  dict_contains (SStr s) d = true →
  ∃ x, dict_get (SStr s) d = Some x ∧ py_getitem (VDict d) s = Ok x.
Proof.
  intros H. apply dict_contains_get in H as [x Hx].
  exists x. unfold py_getitem. by rewrite Hx.
Qed.

(** An entry is processed without an exception exactly when its name
    position holds a string; the only exception is [TypeError]. *)
Lemma process_entry_ok (test : value) :
  is_ok (process_entry test) = name_is_str test.
Proof.
  rewrite process_entry_unfold. unfold name_is_str.
  destruct test as [[| b | z | s] | l | d]; try done.
  destruct d as [| [k v] [| kv d]]; try done.
  - rewrite <- is_generic_test_ok.
    destruct (is_generic_test (VScalar k)) as [g |]; simpl; [| done].
    by destruct (g && is_dict v && needs_migration v).
  - destruct (dict_contains (SStr "test_name") ((k, v) :: kv :: d)) eqn:E.
    + apply py_getitem_contains in E as (x & Hx & ->). rewrite Hx. simpl.
      rewrite <- is_generic_test_ok.
      destruct (is_generic_test x) as [g |]; simpl; [| done].
      by destruct (g && _).
    + destruct (dict_get _ _) eqn:E'; [| done].
      assert (dict_contains (SStr "test_name") ((k, v) :: kv :: d) = true).
      { apply dict_contains_get. eauto. }
      congruence.
Qed.

Lemma process_entry_raise (test : value) (e : exn) :
  process_entry test = Raise e → e = TypeError.
Proof.
  rewrite process_entry_unfold.
  destruct test as [[| b | z | s] | l | d]; try done.
  destruct d as [| [k v] [| kv d]]; try done.
  - destruct (is_generic_test (VScalar k)) as [g |] eqn:E; simpl.
    + by destruct (g && is_dict v && needs_migration v).
    + intros [= <-]. by apply is_generic_test_raise in E.
  - destruct (dict_contains (SStr "test_name") ((k, v) :: kv :: d)) eqn:E;
      [| done].
    apply py_getitem_contains in E as (x & Hx & ->). simpl.
    destruct (is_generic_test x) as [g |] eqn:E; simpl.
    + by destruct (g && _).
    + intros [= <-]. by apply is_generic_test_raise in E.
Qed.

(** Whatever comes out for an entry is the entry itself, with no name, or
    its replacement, with one name. *)
Lemma process_entry_result (test test' : value) (names : list value) :
  process_entry test = Ok (test', names) →
  (test' = test ∧ names = []) ∨
  (test' = replacement test ∧ ∃ name, names = [VStr name]).
Proof.
  rewrite process_entry_unfold. unfold replacement.
  destruct test as [[| b | z | s] | l | d];
    try (intros [= <- <-]; by left).
  destruct d as [| [k v] [| kv d]]; try (intros [= <- <-]; by left).
  - destruct (is_generic_test (VScalar k)) as [g |] eqn:E; simpl; [| done].
    destruct (g && is_dict v && needs_migration v);
      intros [= <- <-]; [right | by left].
    split; [done |].
    assert (is_str (VScalar k) = true) as Hs
      by (by rewrite <- is_generic_test_ok, E).
    destruct k; try discriminate. eauto.
  - destruct (dict_contains (SStr "test_name") ((k, v) :: kv :: d)) eqn:E;
      [| intros [= <- <-]; by left].
    apply py_getitem_contains in E as (x & Hx & ->). simpl.
    destruct (is_generic_test x) as [g |] eqn:E; simpl; [| done].
    destruct (g && _); intros [= <- <-]; [right | by left].
    split; [done |].
    assert (is_str x = true) as Hs by (by rewrite <- is_generic_test_ok, E).
    destruct x as [[] | |]; try discriminate. eauto.
Qed.

Lemma process_tests_entries (tests_list : list value) :
  ∀ mt mn out names,
  process_tests tests_list mt mn = Ok (out, names) ↔
  ∃ rs, Forall2 (λ test r, process_entry test = Ok r) tests_list rs ∧
        out = mt ++ rs.*1 ∧ names = mn ++ concat rs.*2.
Proof.
  induction tests_list as [| test rest IH]; intros mt mn out names; simpl.
  - split.
    + intros [= <- <-]. exists []. by rewrite !app_nil_r.
    + intros (rs & Hrs & -> & ->). apply Forall2_nil_inv_l in Hrs as ->.
      simpl. by rewrite !app_nil_r.
  - rewrite process_test_entry.
    destruct (process_entry test) as [[test' ns] |] eqn:E; simpl.
    + rewrite IH. split.
      * intros (rs & Hrs & -> & ->). exists ((test', ns) :: rs).
        split; [by constructor |]. simpl. by rewrite <- !app_assoc.
      * intros (rs & Hrs & -> & ->).
        apply Forall2_cons_inv_l in Hrs as (r & rs' & Hr & Hrs & ->).
        rewrite E in Hr. apply Ok_inj in Hr as <-.
        exists rs'. split; [done |]. simpl. by rewrite <- !app_assoc.
    + split; [done |]. intros (rs & Hrs & _).
      apply Forall2_cons_inv_l in Hrs as (r & rs' & Hr & _). congruence.
Qed.

Lemma process_tests_ok (tests_list : list value) :
  ∀ mt mn,
  is_ok (process_tests tests_list mt mn) = forallb name_is_str tests_list.
Proof.
  induction tests_list as [| test rest IH]; intros mt mn; simpl; [done |].
  rewrite process_test_entry, <- process_entry_ok.
  destruct (process_entry test) as [[test' ns] |]; simpl; [apply IH | done].
Qed.

Lemma process_tests_raise (tests_list : list value) :
  ∀ mt mn e, process_tests tests_list mt mn = Raise e → e = TypeError.
Proof.
  induction tests_list as [| test rest IH]; intros mt mn e; simpl; [done |].
  rewrite process_test_entry.
  destruct (process_entry test) as [[test' ns] |] eqn:E; simpl.
  - apply IH.
  - intros [= <-]. by apply process_entry_raise in E.
Qed.

Lemma process_test_list_entries (tests_list out names : list value) :
  process_test_list tests_list = Ok (out, names) ↔
  ∃ rs, Forall2 (λ test r, process_entry test = Ok r) tests_list rs ∧
        out = rs.*1 ∧ names = concat rs.*2.
Proof. unfold process_test_list. by rewrite process_tests_entries. Qed.

(** C6.  [process_test_list] returns when every name position holds a
    string and raises [TypeError] otherwise; whenever it returns, the output
    has the length of the input and its entry [i] is entry [i] of the input
    or the replacement of that entry. *)
Theorem process_test_list_keeps_order (tests_list : list value) :
  (forallb name_is_str tests_list = true →
   ∃ out names, process_test_list tests_list = Ok (out, names)) ∧
  (forallb name_is_str tests_list = false →
   process_test_list tests_list = Raise TypeError) ∧
  (∀ out names, process_test_list tests_list = Ok (out, names) →
     length out = length tests_list ∧
     ∀ i test, tests_list !! i = Some test →
       out !! i = Some test ∨ out !! i = Some (replacement test)).
Proof.
  split; [| split].
  - intros H. unfold process_test_list.
    pose proof (process_tests_ok tests_list [] []) as Hok. rewrite H in Hok.
    destruct (process_tests tests_list [] []) as [[out names] |];
      [eauto | done].
  - intros H. unfold process_test_list.
    pose proof (process_tests_ok tests_list [] []) as Hok. rewrite H in Hok.
    destruct (process_tests tests_list [] []) as [[out names] | e] eqn:E;
      [done |].
    by apply process_tests_raise in E as ->.
  - intros out names H.
    apply process_test_list_entries in H as (rs & Hrs & -> & _).
    split.
    + rewrite length_fmap. symmetry. by eapply Forall2_length.
    + intros i test Hi.
      destruct (Forall2_lookup_l _ _ _ _ _ Hrs Hi) as ([test' ns] & Hr & He).
      rewrite list_lookup_fmap, Hr. simpl.
      apply process_entry_result in He as [[-> _] | [-> _]]; auto.
Qed.

Lemma process_test_list_keeps_order_witness :
  ∃ out names,
    process_test_list
      [VDict [(SStr "accepted_values", VDict scenario_A_fields)];
       VStr "not_null"] = Ok (out, names).
Proof.
  apply (proj1 (process_test_list_keeps_order
                  [VDict [(SStr "accepted_values", VDict scenario_A_fields)];
                   VStr "not_null"])).
  reflexivity.
Defined.

Lemma test_name_rule_str (d : dict) (name : string) :
  length d ≠ 1 →
  dict_get (SStr "test_name") d = Some (VStr name) →
  test_name_rule d.
Proof.
  intros Hlen Hget x Hx mt mn. rewrite Hget in Hx. apply (inj Some) in Hx as <-.
  rewrite process_test_entry, process_entry_unfold.
  assert (dict_contains (SStr "test_name") d = true) as Hc
    by (apply dict_contains_get; eauto).
  destruct d as [| [k v] [| kv d]]; [done | done |].
  rewrite Hc. unfold py_getitem. rewrite Hget. simpl.
  unfold classifies_generic. rewrite is_generic_test_str. simpl.
  destruct (_ && _); simpl; by rewrite ?app_nil_r.
Qed.

Lemma kept_fields_get (s : string) (d : dict) :
  SStr s ∈ RESERVED →
  dict_get (SStr s) (kept_fields d) = dict_get (SStr s) d.
Proof.
  intros Hs. unfold kept_fields. induction d as [| [k v] d IH]; [done |].
  rewrite filter_cons. simpl. unfold dict_get at 2. fold dict_get.
  destruct (decide (k ∈ RESERVED)) as [Hk | Hk].
  - unfold dict_get at 1. fold dict_get. by rewrite IH.
  - rewrite IH. destruct (scalar_eqb k (SStr s)) eqn:E; [| done].
    apply scalar_eqb_str in E as ->. done.
Qed.

(** C5 (amended).  A mapping of several keys whose [test_name] value is a
    string: when that value classifies as generic and the whole mapping
    needs migration, the turn of the loop appends the restructured mapping
    (reserved fields, [test_name] among them, then [arguments]) and records
    the [test_name] value; otherwise it appends the entry unchanged. *)
Theorem process_test_list_test_name_entry (d : dict) (name : string) :
  1 < length d →
  dict_wf d = true →
  dict_get (SStr "test_name") d = Some (VStr name) →
  test_name_rule d ∧
  (needs_migration (VDict d) = true →
   migrate_test_dict (VDict d) =
     VDict (kept_fields d ++ [(SStr "arguments", VDict (moved_fields d))]) ∧
   dict_get (SStr "test_name") (kept_fields d) = Some (VStr name)).
Proof.
  intros Hlen Hwf Hget. split.
  - apply test_name_rule_str with name; [lia | done].
  - intros Hneed. split; [by apply migrate_test_dict_unique |].
    rewrite kept_fields_get; [done |]. by apply key_in_reserved.
Qed.

Lemma process_test_list_test_name_entry_witness :
  process_test_list [VDict scenario_C] =
    Ok ([VDict [(SStr "test_name", VStr "dbt_utils.equality");
                (SStr "arguments",
                 VDict [(SStr "compare_model", VStr "ref('other')")])]],
        [VStr "dbt_utils.equality"]).
Proof.
  destruct (process_test_list_test_name_entry scenario_C "dbt_utils.equality")
    as [Hrule Hform]; [simpl; lia | reflexivity | reflexivity |].
  unfold process_test_list, process_tests.
  rewrite (Hrule (VStr "dbt_utils.equality") eq_refl [] []).
  reflexivity.
Defined.

(** C5 as worded fails: with an integer under [test_name] the entry is
    neither replaced nor passed through, the classifier raises. *)
Lemma test_name_rule_counterexample :
  1 < length int_named ∧ has_key "test_name" int_named ∧
  ¬ test_name_rule int_named.
Proof.
  split; [simpl; lia |]. split; [by apply dict_contains_keys |].
  intros H. specialize (H (VInt 5) eq_refl [] []). by vm_compute in H.
Qed.

Lemma passes_through_entry (test : value) :
  process_entry test = Ok (test, []) → passes_through test.
Proof.
  intros H mt mn. rewrite process_test_entry, H. simpl.
  by rewrite app_nil_r.
Qed.

Lemma only_reserved_needs_no_migration (d : dict) :
  only_reserved d → needs_migration (VDict d) = false.
Proof.
  intros H. apply not_true_is_false. intros Hn.
  apply needs_migration_iff in Hn as (d' & [= <-] & _ & k & Hin & Hk).
  by apply Hk, H.
Qed.

Lemma reserved_not_generic (k : scalar) :
  k ∈ RESERVED → k ≠ SStr "test_name" →
  is_generic_test (VScalar k) = Ok false.
Proof.
  intros H Hne. unfold RESERVED in H.
  repeat (apply elem_of_cons in H as [-> | H]; [by vm_compute |]).
  inversion H.
Qed.

(** C7 (amended).  Passed through unchanged, with no name recorded: a bare
    string; a mapping of no or several keys that are all reserved, its
    [test_name] value (if any) being a string; a single-key mapping whose
    key is reserved (under the key [test_name], a value that needs no
    migration); a single-key mapping from a string name to fields that are
    all reserved; a mapping of no or several keys without [test_name]; a
    value that is neither a string nor a mapping. *)
Theorem process_test_list_leaves_alone (test : value) :
  left_alone_shape_str test → passes_through test.
Proof.
  intros H. apply passes_through_entry. rewrite process_entry_unfold.
  destruct H as [H | [H | [H | [H | [H | H]]]]].
  - by destruct test as [[] | |].
  - destruct H as (d & -> & Hres & Hlen & Hname).
    destruct d as [| [k v] [| kv d]]; [done | done |].
    destruct (dict_contains _ _) eqn:E; [| done].
    pose proof (process_entry_ok (VDict ((k, v) :: kv :: d))) as Hok.
    rewrite Hname, process_entry_unfold, E in Hok.
    destruct (py_getitem _ _) as [x |]; [| done]. simpl in *.
    destruct (is_generic_test x) as [g |]; [| done]. simpl.
    rewrite only_reserved_needs_no_migration by done.
    by rewrite andb_false_r.
  - destruct H as (k & v & -> & Hk & Hv).
    destruct (decide (k = SStr "test_name")) as [-> | Hne].
    + rewrite Hv by done. rewrite is_generic_test_str. simpl.
      by rewrite andb_false_r.
    + by rewrite reserved_not_generic.
  - destruct H as (name & f & -> & Hres).
    rewrite is_generic_test_str. simpl.
    rewrite only_reserved_needs_no_migration by done.
    by rewrite andb_false_r.
  - destruct H as (d & -> & Hlen & Hname).
    destruct d as [| [k v] [| kv d]]; [done | done |].
    destruct (dict_contains _ _) eqn:E; [| done].
    by apply dict_contains_keys in E.
  - destruct H as [H1 H2]. by destruct test as [[] | |].
Qed.

Lemma process_test_list_leaves_alone_witness :
  passes_through (VStr "not_null") ∧
  passes_through
    (VDict [(SStr "test_name", VStr "dbt_utils.equality");
            (SStr "config", VDict [])]).
Proof.
  split; apply process_test_list_leaves_alone.
  - by left.
  - right. left. eexists. split; [reflexivity |].
    split; [| split; [simpl; lia | reflexivity]].
    intros k Hk. unfold keys in Hk. simpl in Hk.
    repeat (apply elem_of_cons in Hk as [-> | Hk];
            [apply list_elem_of_In; simpl; auto 10 |]).
    inversion Hk.
Defined.

(** C7 as worded fails: a mapping whose keys are all reserved is not passed
    through when its [test_name] is not a string (the classifier raises),
    nor when [test_name] is its only key, over fields to move (it is then
    taken for a check of that name and migrated). *)
Lemma left_alone_counterexample :
  (left_alone_shape (VDict int_named_reserved) ∧
   ¬ passes_through (VDict int_named_reserved)) ∧
  (left_alone_shape (VDict [(SStr "test_name", VDict scenario_A_fields)]) ∧
   ¬ passes_through (VDict [(SStr "test_name", VDict scenario_A_fields)])).
Proof.
  split; split.
  - right. left. exists int_named_reserved. split; [done |].
    intros k Hk. unfold keys in Hk. simpl in Hk.
    repeat (apply elem_of_cons in Hk as [-> | Hk];
            [apply list_elem_of_In; simpl; auto 10 |]).
    inversion Hk.
  - intros H. specialize (H [] []). by vm_compute in H.
  - right. left. eexists. split; [done |].
    intros k Hk. unfold keys in Hk. simpl in Hk.
    repeat (apply elem_of_cons in Hk as [-> | Hk];
            [apply list_elem_of_In; simpl; auto 10 |]).
    inversion Hk.
  - intros H. specialize (H [] []). by vm_compute in H.
Qed.

(** ** The file-level driver *)

Lemma print_ok (ev : event) (st : state) :
  stdout_error (os st) (console (os st)) ev = None →
  print ev st = (Ok tt, printed ev st).
Proof. intros H. unfold print. by rewrite H. Qed.

Lemma print_raise (ev : event) (st st' : state) (e : exn) :
  print ev st = (Raise e, st') →
  st' = st ∧ stdout_error (os st) (console (os st)) ev = Some e.
Proof.
  unfold print. destruct (stdout_error _ _ _) as [e' |]; [| done].
  by intros [= -> ->].
Qed.

Lemma touches_refl (paths : list string) (st : state) : touches paths st st.
Proof. by repeat split. Qed.

Lemma touches_trans (paths : list string) (st1 st2 st3 : state) :
  touches paths st1 st2 → touches paths st2 st3 → touches paths st1 st3.
Proof.
  intros (Hd & Hm & Hdirs & Hro & Hso & Hwe & Hf & Ho)
         (Hd' & Hm' & Hdirs' & Hro' & Hso' & Hwe' & Hf' & Ho').
  repeat split; try congruence.
  - intros Hdry. rewrite Hf' by congruence. auto.
  - intros other Hin. rewrite Ho' by done. auto.
Qed.

Lemma touches_mono (paths paths' : list string) (st st' : state) :
  paths ⊆ paths' → touches paths st st' → touches paths' st st'.
Proof.
  intros Hsub (Hd & Hm & Hdirs & Hro & Hso & Hwe & Hf & Ho).
  repeat split; try done. intros other Hin. apply Ho. set_solver.
Qed.

Lemma touches_bind {A B} (paths : list string) (m : io A) (f : A → io B)
    (st : state) :
  touches paths st (m st).2 →
  (∀ a st1, m st = (Ok a, st1) → touches paths st1 (f a st1).2) →
  touches paths st ((m ≫= f) st).2.
Proof.
  intros Hm Hf. unfold mbind, io_bind.
  destruct (m st) as [[a | e] st1] eqn:E; [| done].
  eapply touches_trans; [exact Hm |]. by apply Hf.
Qed.

Lemma touches_print (paths : list string) (ev : event) (st : state) :
  touches paths st (print ev st).2.
Proof.
  unfold print. destruct (stdout_error _ _ _); by repeat split.
Qed.

Lemma touches_reliable (paths : list string) (st st' : state) :
  touches paths st st' → console_reliable (os st) → console_reliable (os st').
Proof.
  intros (_ & _ & _ & _ & Hso & _) H so_far ev. rewrite Hso. apply H.
Qed.

Section DriverProperties.

Variable safe_load : string → result value.
Variable yaml_dump : value → string.
Variable join_set : list value → string.
Variable glob : world → string → string → list string.

#[local] Abbreviation body := (migrate_file_body safe_load yaml_dump join_set).
#[local] Abbreviation migrate := (migrate_file safe_load yaml_dump join_set).
#[local] Abbreviation run_files := (migrate_files safe_load yaml_dump join_set).
#[local] Abbreviation run :=
  (run_migration safe_load yaml_dump join_set glob).
#[local] Abbreviation main' := (main safe_load yaml_dump join_set glob).

(** Every path through the [try] block. *)
Lemma migrate_file_body_paths (file_path : string) (st : state) :
  body file_path st =
    match files (os st) !! file_path with
    | None => (Raise OSError, st)
    | Some original_content =>
        match safe_load original_content with
        | Raise YAMLError =>
            match print (PrintParseWarning file_path YAMLError) st with
            | (Ok _, st') => (Ok false, st')
            | (Raise e, st') => (Raise e, st')
            end
        | Raise e => (Raise e, st)
        | Ok yaml_content =>
            if negb (truthy yaml_content) then (Ok false, st)
            else
              match process_yaml_content yaml_content file_path with
              | Raise e => (Raise e, st)
              | Ok (migrated_content, migrated_tests) =>
                  if negb (truthy (VList migrated_tests)) then (Ok false, st)
                  else
                    let st1 :=
                      recorded (report join_set file_path migrated_tests) st in
                    let done_ :=
                      PrintMigrated (dry_run (self st))
                        (length migrated_tests) file_path in
                    match
                      (if dry_run (self st) then (Ok tt, st1)
                       else write_text file_path (yaml_dump migrated_content)
                              st1)
                    with
                    | (Ok _, st2) =>
                        match print done_ st2 with
                        | (Ok _, st3) => (Ok true, st3)
                        | (Raise e, st3) => (Raise e, st3)
                        end
                    | (Raise e, st2) => (Raise e, st2)
                    end
              end
        end
    end.
Proof.
  unfold migrate_file_body, mbind, io_bind, read_text.
  destruct (files (os st) !! file_path) as [text |]; [| done].
  destruct (safe_load text) as [content | e].
  2: { by destruct e. }
  unfold lift. destruct (truthy content); cbn [negb]; [| done].
  destruct (process_yaml_content content file_path) as [[mc mt] | e]; [| done].
  destruct (truthy (VList mt)); cbn [negb]; [| done].
  unfold append_migration, get_self, mret, io_ret. cbn [recorded self dry_run].
  cbv zeta.
  destruct (dry_run (self st)).
  - by destruct (print _ _) as [[[] | e] st'].
  - destruct (write_text _ _ _) as [[[] | e] st2]; [| done].
    by destruct (print _ _) as [[[] | e] st'].
Qed.

Lemma migrate_file_caught (file_path : string) (st : state) :
  migrate file_path st =
    match body file_path st with
    | (Ok b, st') => (Ok b, st')
    | (Raise e, st') =>
        match print (PrintError file_path e) st' with
        | (Ok _, st'') => (Ok false, st'')
        | (Raise e', st'') => (Raise e', st'')
        end
    end.
Proof.
  unfold migrate_file, try_except, mbind, io_bind, mret, io_ret.
  destruct (body file_path st) as [[b | e] st']; [done |].
  by destruct (print _ st') as [[[] | e'] st''].
Qed.

(** What the [try] block leaves of the state it started from, and what it
    has added to the report. *)
Lemma migrate_file_body_touches (file_path : string) (st : state) :
  touches [file_path] st (body file_path st).2.
Proof.
  rewrite migrate_file_body_paths.
  destruct (files (os st) !! file_path) as [text |];
    [| apply touches_refl].
  destruct (safe_load text) as [content | e].
  2: { destruct e; try apply touches_refl.
       pose proof (touches_print [file_path]
                     (PrintParseWarning file_path YAMLError) st) as H.
       by destruct (print _ st) as [[[] | e] st']. }
  destruct (truthy content); cbn [negb]; [| apply touches_refl].
  destruct (process_yaml_content content file_path) as [[mc mt] | e];
    [| apply touches_refl].
  destruct (truthy (VList mt)); cbn [negb]; [| apply touches_refl].
  cbv zeta.
  set (st1 := recorded (report join_set file_path mt) st).
  assert (touches [file_path] st st1) as H1 by (by repeat split).
  destruct (dry_run (self st)) eqn:Hdry.
  - pose proof (touches_print [file_path]
                  (PrintMigrated true (length mt) file_path) st1) as H.
    destruct (print _ st1) as [[[] | e] st']; by eapply touches_trans.
  - assert (touches [file_path] st
              (write_text file_path (yaml_dump mc) st1).2) as H2.
    { unfold write_text. destruct (bool_decide _); [done |].
      destruct (write_error _ _ _) as [[e remains] |]; simpl;
        (repeat split; try done; [by rewrite Hdry |]);
        intros other Hin; apply lookup_insert_ne; set_solver. }
    destruct (write_text _ _ st1) as [[[] | e] st2]; [| done].
    pose proof (touches_print [file_path]
                  (PrintMigrated false (length mt) file_path) st2) as H.
    destruct (print _ st2) as [[[] | e] st']; by eapply touches_trans.
Qed.

Lemma migrate_file_touches (file_path : string) (st : state) :
  touches [file_path] st (migrate file_path st).2.
Proof.
  rewrite migrate_file_caught.
  pose proof (migrate_file_body_touches file_path st) as H.
  destruct (body file_path st) as [[b | e] st']; [done |].
  pose proof (touches_print [file_path] (PrintError file_path e) st') as H'.
  destruct (print _ st') as [[[] | e'] st'']; by eapply touches_trans.
Qed.

(** What a call of [migrate_file] leaves of the state it started from. *)
Lemma migrate_file_frame (file_path : string) (st : state) :
  let st' := (migrate file_path st).2 in
  dry_run (self st') = dry_run (self st) ∧
  models_dir (self st') = models_dir (self st) ∧
  dirs (os st') = dirs (os st) ∧
  read_only (os st') = read_only (os st) ∧
  (dry_run (self st) = true → files (os st') = files (os st)) ∧
  (∀ other, other ≠ file_path →
            files (os st') !! other = files (os st) !! other).
Proof.
  destruct (migrate_file_touches file_path st)
    as (Hd & Hm & Hdirs & Hro & _ & _ & Hf & Ho).
  cbv zeta. repeat split; try done.
  intros other Hne. apply Ho. set_solver.
Qed.

(** An exception leaves [migrate_file] only out of the handler's own
    [print]. *)
Lemma migrate_file_raise (file_path : string) (st st' : state) (e : exn) :
  migrate file_path st = (Raise e, st') →
  ∃ e0, body file_path st = (Raise e0, st') ∧
        stdout_error (os st') (console (os st'))
          (PrintError file_path e0) = Some e.
Proof.
  rewrite migrate_file_caught.
  destruct (body file_path st) as [[b | e0] st1]; [done |].
  destruct (print _ st1) as [[[] | e'] st2] eqn:E; [done |].
  intros [= -> ->]. apply print_raise in E as [-> E]. by exists e0.
Qed.

Lemma migrate_file_total (file_path : string) (st : state) :
  console_reliable (os st) → ∃ b st', migrate file_path st = (Ok b, st').
Proof.
  intros Hrel. destruct (migrate file_path st) as [[b | e] st'] eqn:E;
    [eauto |].
  pose proof (migrate_file_touches file_path st) as Ht. rewrite E in Ht.
  apply migrate_file_raise in E as (e0 & _ & E).
  by rewrite (touches_reliable _ _ _ Ht Hrel) in E.
Qed.

Lemma migrate_files_touches (yaml_files : list string) :
  ∀ n st, touches yaml_files st (run_files yaml_files n st).2.
Proof.
  induction yaml_files as [| p rest IH]; intros n st; simpl.
  - apply touches_refl.
  - apply touches_bind.
    + eapply touches_mono; [| apply migrate_file_touches]. set_solver.
    + intros b st1 _. eapply touches_mono; [| apply IH]. set_solver.
Qed.

Lemma migrate_files_total (yaml_files : list string) :
  ∀ n st, console_reliable (os st) →
          ∃ k st', run_files yaml_files n st = (Ok k, st').
Proof.
  induction yaml_files as [| p rest IH]; intros n st Hrel; simpl.
  - unfold mret, io_ret. eauto.
  - unfold mbind, io_bind.
    pose proof (migrate_file_touches p st) as Ht.
    destruct (migrate_file_total p st Hrel) as (b & st' & E).
    rewrite E in *. apply IH. by eapply touches_reliable.
Qed.

Lemma print_migrations_touches (paths : list string)
    (ms : list TestMigration) :
  ∀ st, touches paths st (print_migrations ms st).2.
Proof.
  induction ms as [| m rest IH]; intros st; simpl.
  - apply touches_refl.
  - apply touches_bind; [apply touches_print |]. intros _ st1 _. apply IH.
Qed.

Lemma print_migrations_total (ms : list TestMigration) :
  ∀ st, console_reliable (os st) →
        ∃ st', print_migrations ms st = (Ok tt, st').
Proof.
  induction ms as [| m rest IH]; intros st Hrel; simpl.
  - unfold mret, io_ret. eauto.
  - unfold mbind, io_bind. rewrite print_ok by apply Hrel. by apply IH.
Qed.

(** [run_migration] writes only where [migrate_file] does. *)
Lemma run_migration_touches (st : state) :
  touches (glob (os st) (models_dir (self st)) "**/*.yml" ++
           glob (os st) (models_dir (self st)) "**/*.yaml")
    st (run st).2.
Proof.
  unfold run_migration.
  apply touches_bind; [apply touches_refl |].
  intros yaml_files ? [= <- <-].
  apply touches_bind; [apply touches_refl |]. intros me ? [= <- <-].
  destruct (length _ =? 0)%nat; [apply touches_print |].
  repeat (apply touches_bind; [apply touches_print | intros _ ? _]).
  apply touches_bind; [apply migrate_files_touches | intros k ? _].
  repeat (apply touches_bind; [apply touches_print | intros _ ? _]).
  apply touches_bind; [unfold get_self; apply touches_refl | intros me ? _].
  apply touches_bind; [apply touches_print | intros _ ? _].
  destruct (negb _); [| apply touches_refl].
  apply touches_bind; [apply touches_print | intros _ ? _].
  apply print_migrations_touches.
Qed.

(** With a console that takes every line, [run_migration] returns. *)
Lemma run_migration_total (st : state) :
  console_reliable (os st) → ∃ st', run st = (Ok tt, st').
Proof.
  intros Hrel.
  unfold run_migration, mbind, io_bind, find_yaml_files, get_self.
  set (yaml_files := glob _ _ _ ++ glob _ _ _).
  destruct (length yaml_files =? 0)%nat.
  - rewrite print_ok by apply Hrel. eauto.
  - rewrite !print_ok by apply Hrel.
    match goal with
    | |- context [run_files yaml_files 0 ?s] => set (st0 := s)
    end.
    assert (console_reliable (os st0)) as Hrel0 by exact Hrel.
    pose proof (migrate_files_touches yaml_files 0 st0) as Ht.
    destruct (migrate_files_total yaml_files 0 st0 Hrel0) as (k & st1 & E).
    rewrite E in *. cbn [snd] in Ht.
    assert (console_reliable (os st1)) as Hrel1
      by (by eapply touches_reliable).
    rewrite !print_ok by apply Hrel1.
    destruct (negb _); [| unfold mret, io_ret; eauto].
    rewrite print_ok by apply Hrel1.
    match goal with
    | |- context [print_migrations ?ms ?s] =>
        destruct (print_migrations_total ms s) as (st2 & ->);
          [exact Hrel1 | eauto]
    end.
Qed.

Lemma main_exit_status (dir : string) (dry : bool) (w : world) :
  ((main' dir dry w).1 = 0%Z ∨ (main' dir dry w).1 = 1%Z) ∧
  (path_exists w dir = false →
   (main' dir dry w).1 = 1%Z ∧ files (main' dir dry w).2 = files w) ∧
  (console_reliable w →
   (main' dir dry w).1 = (if path_exists w dir then 0 else 1)%Z ∧
   (path_exists w dir = false →
    (main' dir dry w).2 =
      set_console (console w ++ [PrintMissingDir dir; PrintHint]) w)).
Proof.
  unfold main, print_line. split; [| split].
  - destruct (path_exists w dir); cbn [negb].
    + destruct (run _) as [[[] | e] st']; auto.
    + destruct (stdout_error w _ _); auto.
  - intros ->. cbn [negb].
    destruct (stdout_error w _ _); [done |]. cbn [fst snd].
    by destruct (stdout_error _ _ _).
  - intros Hrel. destruct (path_exists w dir); cbn [negb].
    + split; [| done].
      by destruct (run_migration_total
                     {| self := new_migrator dir dry; os := w |} Hrel)
        as (st' & ->).
    + rewrite Hrel. cbn [fst snd]. split; [done |]. intros _.
      change (stdout_error (set_console ?c w)) with (stdout_error w).
      rewrite Hrel. unfold set_console. cbn. by rewrite <- app_assoc.
Qed.


(** C10.  A document with a declaration to migrate and, after it, a
    declaration whose name position holds the integer 5 (as [test_name]
    value, or as the key of a single-key mapping): the walker raises
    [TypeError], which leaves the [try] block with nothing changed;
    [migrate_file] answers [False] and only prints the error (when that
    line can be printed; it never answers [True]), so the file is not
    written and nothing is reported, although the first declaration alone
    would have been migrated. *)
Theorem non_string_name_aborts_file
    (file_path text : string) (st : state) (content : value) :
  files (os st) !! file_path = Some text →
  safe_load text = Ok content →
  content = document_int_test_name ∨ content = document_int_key →
  process_yaml_content content file_path = Raise TypeError ∧
  body file_path st = (Raise TypeError, st) ∧
  (stdout_error (os st) (console (os st)) (PrintError file_path TypeError)
     = None →
   migrate file_path st =
     (Ok false, printed (PrintError file_path TypeError) st)) ∧
  (migrate file_path st).1 ≠ Ok true ∧
  files (os (migrate file_path st).2) = files (os st) ∧
  migrations_performed (self (migrate file_path st).2) =
    migrations_performed (self st) ∧
  ∃ migrated,
    process_yaml_content document_good file_path =
      Ok (migrated, [VStr "accepted_values"]).
Proof.
  intros Hf Hl Hc.
  assert (process_yaml_content content file_path = Raise TypeError) as Hp
    by (by destruct Hc as [-> | ->]).
  assert (truthy content = true) as Ht by (by destruct Hc as [-> | ->]).
  assert (body file_path st = (Raise TypeError, st)) as Hb.
  { by rewrite migrate_file_body_paths, Hf, Hl, Ht, Hp. }
  split; [done |]. split; [done |]. rewrite migrate_file_caught, Hb.
  split; [intros Hpr; by rewrite print_ok |].
  unfold print. destruct (stdout_error _ _ _); cbn [fst snd].
  - repeat split; try done. eexists. reflexivity.
  - repeat split; try done. eexists. reflexivity.
Qed.

End DriverProperties.

(** C8.  With [dry_run] set, [migrate_file] leaves every file as it was,
    and so does a whole run; the report entries after the call carry the
    same paths and the same lists of names with [dry_run] set or not (also
    when the two runs join the names in different orders), and when names
    were collected the entry added holds the file path, the joined names
    and the list of names. *)
Theorem dry_run_never_writes
    (safe_load : string → result value) (yaml_dump : value → string)
    (join_set join_set' : list value → string)
    (glob : world → string → string → list string)
    (yaml_file : string) (st : state) :
  let dry :=
    (migrate_file safe_load yaml_dump join_set yaml_file
       (with_dry_run true st)).2 in
  let wet :=
    (migrate_file safe_load yaml_dump join_set' yaml_file
       (with_dry_run false st)).2 in
  let entries s :=
    map (λ m, (file_path m, arguments_moved m))
        (migrations_performed (self s)) in
  files (os dry) = files (os st) ∧
  entries dry = entries wet ∧
  (∀ text content migrated_content migrated_tests,
     files (os st) !! yaml_file = Some text →
     safe_load text = Ok content →
     truthy content = true →
     process_yaml_content content yaml_file =
       Ok (migrated_content, migrated_tests) →
     migrated_tests ≠ [] →
     migrations_performed (self dry) =
       migrations_performed (self st) ++
         [report join_set yaml_file migrated_tests] ∧
     ∃ m, migrations_performed (self dry) =
            migrations_performed (self st) ++ [m] ∧
          file_path m = yaml_file ∧
          test_name m = join_set migrated_tests ∧
          arguments_moved m = migrated_tests ∧
          entries wet = entries st ++ [(yaml_file, migrated_tests)]) ∧
  (∀ dir w,
     files (main safe_load yaml_dump join_set glob dir true w).2 = files w).
Proof.
  cbv zeta.
  assert (∀ js b,
    migrations_performed
      (self (migrate_file safe_load yaml_dump js yaml_file
               (with_dry_run b st)).2) =
    migrations_performed (self st) ++
      match files (os st) !! yaml_file with
      | Some text =>
          match safe_load text with
          | Ok content =>
              if truthy content then
                match process_yaml_content content yaml_file with
                | Ok (_, mt) =>
                    if truthy (VList mt) then [report js yaml_file mt] else []
                | Raise _ => []
                end
              else []
          | Raise _ => []
          end
      | None => []
      end) as Hreport.
  { intros js b. rewrite migrate_file_caught, migrate_file_body_paths.
    change (os (with_dry_run b st)) with (os st).
    change (dry_run (self (with_dry_run b st))) with b.
    assert (∀ ev s, migrations_performed (self (print ev s).2) =
                    migrations_performed (self s)) as Hpr
      by (intros ev s; unfold print; by destruct (stdout_error _ _ _)).
    assert (∀ (r : result bool * state) p,
              migrations_performed
                (self (match r with
                       | (Ok b', s) => (Ok b', s)
                       | (Raise e, s) =>
                           match print (PrintError p e) s with
                           | (Ok _, s') => (Ok false, s')
                           | (Raise e', s') => (Raise e', s')
                           end
                       end).2) = migrations_performed (self r.2)) as Hcatch.
    { intros [[b' | e] s] p; [done |]. specialize (Hpr (PrintError p e) s).
      by destruct (print _ s) as [[[] | e'] s']. }
    rewrite Hcatch.
    destruct (files (os st) !! yaml_file) as [text |];
      [| by rewrite app_nil_r].
    destruct (safe_load text) as [content | e].
    2: { destruct e; try (by rewrite app_nil_r).
         specialize (Hpr (PrintParseWarning yaml_file YAMLError)
                       (with_dry_run b st)).
         destruct (print _ _) as [[[] | e] st']; simpl in *;
           by rewrite app_nil_r. }
    destruct (truthy content); cbn [negb]; [| by rewrite app_nil_r].
    destruct (process_yaml_content content yaml_file) as [[mc mt] | e];
      [| by rewrite app_nil_r].
    destruct (truthy (VList mt)); cbn [negb]; [| by rewrite app_nil_r].
    cbv zeta.
    set (st1 := recorded (report js yaml_file mt) (with_dry_run b st)).
    assert (migrations_performed (self st1) =
            migrations_performed (self st) ++ [report js yaml_file mt])
      as H1 by done.
    destruct b.
    - specialize (Hpr (PrintMigrated true (length mt) yaml_file) st1).
      destruct (print _ st1) as [[[] | e] s]; simpl in *; congruence.
    - assert (migrations_performed
                (self (write_text yaml_file (yaml_dump mc) st1).2) =
              migrations_performed (self st1)) as Hw.
      { unfold write_text. destruct (bool_decide _); [done |].
        by destruct (write_error _ _ _) as [[e remains] |]. }
      destruct (write_text _ _ st1) as [[[] | e] s2]; simpl in *;
        [| congruence].
      specialize (Hpr (PrintMigrated false (length mt) yaml_file) s2).
      destruct (print _ s2) as [[[] | e] s]; simpl in *; congruence. }
  split; [| split; [| split]].
  - by apply (migrate_file_frame safe_load yaml_dump join_set yaml_file
                (with_dry_run true st)).
  - rewrite !Hreport, !map_app. f_equal.
    destruct (files (os st) !! yaml_file) as [text |]; [| done].
    destruct (safe_load text) as [content | e]; [| done].
    destruct (truthy content); [| done].
    destruct (process_yaml_content content yaml_file) as [[mc mt] | e];
      [| done].
    by destruct (truthy (VList mt)).
  - intros text content mc mt Hf Hl Ht Hp Hne.
    assert (truthy (VList mt) = true) as Hmt by (by destruct mt).
    rewrite !Hreport, Hf, Hl, Ht, Hp, Hmt. split; [done |].
    eexists. split; [reflexivity |]. by rewrite map_app.
  - intros dir w.
    destruct (path_exists w dir) eqn:Hex.
    + unfold main. rewrite Hex. cbn [negb].
      pose proof (run_migration_touches safe_load yaml_dump join_set glob
                    {| self := new_migrator dir true; os := w |}) as Ht.
      destruct Ht as (_ & _ & _ & _ & _ & _ & Hf & _).
      specialize (Hf eq_refl).
      by destruct (run_migration _ _ _ _ _) as [[[] | e] st'].
    + by apply (main_exit_status safe_load yaml_dump join_set glob dir true w).
Qed.

Lemma dry_run_never_writes_witness :
  files (os (migrate_file (load_as document_good) dump_stub join_stub
               "models/schema.yml" (demo_state true)).2)
    = files demo_world ∧
  migrations_performed
    (self (migrate_file (load_as document_good) dump_stub join_stub
             "models/schema.yml" (demo_state true)).2)
    = [report join_stub "models/schema.yml" [VStr "accepted_values"]].
Proof.
  destruct (dry_run_never_writes (load_as document_good) dump_stub join_stub
              join_stub glob_stub "models/schema.yml" (demo_state false))
    as (Hfiles & _ & Hreport & _).
  split; [exact Hfiles |].
  eapply (Hreport "models: ..."); [reflexivity .. | discriminate].
Defined.



Lemma non_string_name_aborts_file_witness :
  migrate_file (load_as document_int_test_name) dump_stub join_stub
    "models/schema.yml" (demo_state false) =
    (Ok false,
     printed (PrintError "models/schema.yml" TypeError) (demo_state false)) ∧
  migrate_file (load_as document_int_key) dump_stub join_stub
    "models/schema.yml" (demo_state false) =
    (Ok false,
     printed (PrintError "models/schema.yml" TypeError) (demo_state false)).
Proof.
  split.
  - apply (non_string_name_aborts_file (load_as document_int_test_name)
             dump_stub join_stub "models/schema.yml" "models: ..."
             (demo_state false) document_int_test_name);
      [reflexivity | reflexivity | by left | reflexivity].
  - apply (non_string_name_aborts_file (load_as document_int_key)
             dump_stub join_stub "models/schema.yml" "models: ..."
             (demo_state false) document_int_key);
      [reflexivity | reflexivity | by right | reflexivity].
Defined.

(** ** Running the walker twice *)

Lemma at_key_absent (k : string) (f : step) (x : value) :
  py_in k x = Ok false → fixes (at_key k f) x.
Proof. intros H all. unfold at_key. by rewrite H. Qed.

(** What a successful step under [k] does to the node. *)
Lemma at_key_result (k : string) (f : step) (x x' : value)
    (all all' : list value) :
  at_key k f x all = Ok (x', all') →
  (py_in k x = Ok false ∧ x' = x ∧ all' = all) ∨
  ∃ d c c', x = VDict d ∧ dict_get (SStr k) d = Some c ∧
            f c all = Ok (c', all') ∧
            x' = VDict (dict_set (SStr k) c' d).
Proof.
  unfold at_key. destruct (py_in k x) as [[] |] eqn:Hin; simpl; [| | done].
  - destruct x as [a | l | d]; try done. unfold py_getitem.
    destruct (dict_get (SStr k) d) as [c |] eqn:Hc; [| done]. simpl.
    destruct (f c all) as [[c' a'] |] eqn:Hf; [| done]. simpl.
    intros [= <- <-]. right. by exists d, c, c'.
  - intros [= <- <-]. by left.
Qed.

Lemma at_key_dict (k : string) (f : step) (d : dict) (all : list value) :
  at_key k f (VDict d) all =
    match dict_get (SStr k) d with
    | None => Ok (VDict d, all)
    | Some c =>
        '(c', all) ← f c all; Ok (VDict (dict_set (SStr k) c' d), all)
    end.
Proof.
  unfold at_key, py_in, py_getitem. simpl.
  destruct (dict_get (SStr k) d) as [c |] eqn:Hc.
  - assert (dict_contains (SStr k) d = true) as ->
      by (apply dict_contains_get; eauto).
    done.
  - destruct (dict_contains (SStr k) d) eqn:E; [| done].
    apply dict_contains_get in E as [c E]. congruence.
Qed.

Lemma at_key_not_dict (k : string) (f : step) (x x' : value)
    (all all' : list value) :
  is_dict x = false → at_key k f x all = Ok (x', all') →
  x' = x ∧ all' = all ∧ fixes (at_key k f) x.
Proof.
  intros Hx H.
  apply at_key_result in H as [(Hin & -> & ->) | (d & c & c' & -> & _)];
    [| done].
  split; [done |]. split; [done |]. by apply at_key_absent.
Qed.

(** After a step under [k] the node is settled for that step. *)
Lemma at_key_fixes (k : string) (f : step) (x x' : value)
    (all all' : list value) :
  (∀ c, py_getitem x k = Ok c → settles_at f c) →
  at_key k f x all = Ok (x', all') → fixes (at_key k f) x'.
Proof.
  intros Hs H.
  apply at_key_result in H
    as [(Hin & -> & ->) | (d & c & c' & -> & Hc & Hf & ->)].
  - by apply at_key_absent.
  - intros b. rewrite at_key_dict, dict_get_set.
    assert (fixes f c') as Hfix.
    { eapply Hs; [| exact Hf]. unfold py_getitem. by rewrite Hc. }
    rewrite Hfix. simpl. by rewrite dict_set_set.
Qed.

(** A step under another key sees the same child. *)
Lemma at_key_other (k1 k2 : string) (f : step) (x x' : value)
    (all all' : list value) :
  k1 ≠ k2 → at_key k2 f x all = Ok (x', all') →
  py_getitem x' k1 = py_getitem x k1 ∧ py_in k1 x' = py_in k1 x.
Proof.
  intros Hne H.
  apply at_key_result in H
    as [(Hin & -> & ->) | (d & c & c' & -> & Hc & Hf & ->)]; [done |].
  unfold py_getitem, py_in.
  by rewrite dict_get_set_other, dict_contains_set_other.
Qed.

Lemma fixes_at_key_child (k : string) (f : step) (d : dict) (c : value) :
  fixes (at_key k f) (VDict d) → dict_get (SStr k) d = Some c → fixes f c.
Proof.
  intros Hfix Hc b. specialize (Hfix b). rewrite at_key_dict, Hc in Hfix.
  destruct (f c b) as [[c' b'] |]; [| done]. simpl in Hfix.
  injection Hfix as Hd <-.
  assert (dict_get (SStr k) (dict_set (SStr k) c' d) = Some c') as H
    by apply dict_get_set.
  rewrite Hd, Hc in H. by injection H as <-.
Qed.

(** ... and leaves a node settled for the first key settled. *)
Lemma at_key_frame (k1 k2 : string) (f1 f2 : step) (x x' : value)
    (all all' : list value) :
  k1 ≠ k2 → fixes (at_key k1 f1) x →
  at_key k2 f2 x all = Ok (x', all') → fixes (at_key k1 f1) x'.
Proof.
  intros Hne Hfix H.
  apply at_key_result in H
    as [(Hin & -> & ->) | (d & c & c' & -> & Hc & Hf & ->)]; [done |].
  intros b. rewrite at_key_dict, dict_get_set_other by done.
  destruct (dict_get (SStr k1) d) as [c1 |] eqn:Hc1; [| done].
  rewrite (fixes_at_key_child k1 f1 d c1 Hfix Hc1). simpl.
  rewrite dict_set_same; [done |]. by rewrite dict_get_set_other.
Qed.

Lemma chain_keys_cons (k : string) (f : step) (kfs : list (string * step))
    (x : value) (all : list value) :
  chain_keys ((k, f) :: kfs) x all =
    '(x, all) ← at_key k f x all; chain_keys kfs x all.
Proof. done. Qed.

Lemma chain_keys_frame (k : string) (f : step) (kfs : list (string * step)) :
  ∀ x x' all all',
  k ∉ kfs.*1 → fixes (at_key k f) x →
  chain_keys kfs x all = Ok (x', all') → fixes (at_key k f) x'.
Proof.
  induction kfs as [| [k2 f2] kfs IH]; intros x x' all all' Hk Hfix H.
  - by injection H as <- <-.
  - rewrite chain_keys_cons in H. simpl in Hk.
    apply not_elem_of_cons in Hk as [Hne Hk].
    destruct (at_key k2 f2 x all) as [[x1 a1] |] eqn:E; [| done].
    simpl in H. eapply IH; [done | | exact H].
    eapply at_key_frame; [| done | exact E]. done.
Qed.

Lemma chain_keys_fixed (kfs : list (string * step)) (x : value) :
  Forall (λ kf, fixes (at_key kf.1 kf.2) x) kfs → fixes (chain_keys kfs) x.
Proof.
  induction 1 as [| [k f] kfs Hkf _ IH]; intros b; [done |].
  rewrite chain_keys_cons. simpl in Hkf. rewrite Hkf. simpl. apply IH.
Qed.

Lemma chain_keys_settled (kfs : list (string * step)) :
  ∀ x x' all all',
  NoDup kfs.*1 →
  (∀ k f c, (k, f) ∈ kfs → py_getitem x k = Ok c → settles_at f c) →
  chain_keys kfs x all = Ok (x', all') →
  Forall (λ kf, fixes (at_key kf.1 kf.2) x') kfs.
Proof.
  induction kfs as [| [k f] kfs IH]; intros x x' all all' Hnd Hs H;
    [constructor |].
  rewrite chain_keys_cons in H. simpl in Hnd.
  apply NoDup_cons in Hnd as [Hk Hnd].
  destruct (at_key k f x all) as [[x1 a1] |] eqn:E; [| done]. simpl in H.
  constructor.
  - simpl. eapply chain_keys_frame; [exact Hk | | exact H].
    eapply at_key_fixes; [| exact E].
    intros c Hc. eapply Hs; [left | done].
  - eapply IH; [done | | exact H].
    intros k' f' c Hin Hc. eapply Hs; [by right |].
    assert (k' ≠ k) as Hne.
    { intros ->. apply Hk. apply list_elem_of_fmap. by exists (k, f'). }
    by rewrite <- (proj1 (at_key_other k' k f x x1 all a1 Hne E)).
Qed.

(** A chain of steps under distinct keys settles the node, provided each
    step settles the child it finds. *)
Lemma chain_keys_settles (kfs : list (string * step)) (x : value) :
  NoDup kfs.*1 →
  (∀ k f c, (k, f) ∈ kfs → py_getitem x k = Ok c → settles_at f c) →
  settles_at (chain_keys kfs) x.
Proof.
  intros Hnd Hs all x' all' H.
  apply chain_keys_fixed. by eapply chain_keys_settled.
Qed.

Lemma chain_keys_not_dict (kfs : list (string * step)) :
  ∀ x x' all all',
  is_dict x = false → chain_keys kfs x all = Ok (x', all') →
  x' = x ∧ all' = all.
Proof.
  induction kfs as [| [k f] kfs IH]; intros x x' all all' Hx H.
  - by injection H as <- <-.
  - rewrite chain_keys_cons in H.
    destruct (at_key k f x all) as [[x1 a1] |] eqn:E; [| done]. simpl in H.
    apply at_key_not_dict in E as (-> & -> & _); [| done]. by eapply IH.
Qed.

Lemma fixes_ext (f g : step) (x : value) :
  (∀ y all, f y all = g y all) → fixes g x → fixes f x.
Proof. intros E H all. by rewrite E. Qed.

Lemma settles_at_ext (f g : step) (x : value) :
  (∀ y all, f y all = g y all) → settles_at g x → settles_at f x.
Proof.
  intros E H all x' all' Hf. apply (fixes_ext f g); [done |].
  eapply H. by rewrite <- E.
Qed.

Lemma for_each_fixed (f : step) (items : list value) :
  Forall (fixes f) items → ∀ all, for_each f items all = Ok (items, all).
Proof.
  induction 1 as [| x items Hx _ IH]; intros all; simpl; [done |].
  rewrite Hx. simpl. by rewrite IH.
Qed.

Lemma for_each_settled (f : step) (items : list value) :
  ∀ items' all all',
  Forall (settles_at f) items →
  for_each f items all = Ok (items', all') → Forall (fixes f) items'.
Proof.
  induction items as [| x items IH]; intros items' all all' Hs H; simpl in H.
  - injection H as <- <-. constructor.
  - apply Forall_cons in Hs as [Hx Hs].
    destruct (f x all) as [[x1 a1] |] eqn:E; [| done]. simpl in H.
    destruct (for_each f items a1) as [[rest a2] |] eqn:E'; [| done].
    simpl in H. injection H as <- <-. constructor; [by eapply Hx |].
    by eapply IH.
Qed.

Lemma for_each_keeps (f : step) (items : list value) :
  ∀ items' all all',
  (∀ x a x' a', is_dict x = false → f x a = Ok (x', a') → x' = x ∧ a' = a) →
  Forall (λ x, is_dict x = false) items →
  for_each f items all = Ok (items', all') → items' = items ∧ all' = all.
Proof.
  induction items as [| x items IH]; intros items' all all' Hk Hs H;
    simpl in H.
  - by injection H as <- <-.
  - apply Forall_cons in Hs as [Hx Hs].
    destruct (f x all) as [[x1 a1] |] eqn:E; [| done]. simpl in H.
    destruct (for_each f items a1) as [[rest a2] |] eqn:E'; [| done].
    simpl in H. injection H as <- <-.
    apply Hk in E as [-> ->]; [| done].
    by apply IH in E' as [-> ->].
Qed.

Lemma list_step_settles (f : step) (c : value) :
  (∀ items, c = VList items → Forall (settles_at f) items) →
  settles_at (list_step f) c.
Proof.
  intros Hs all c' all' H b. unfold list_step in *.
  destruct c as [a | items | d]; try (by injection H as <- <-).
  destruct (for_each f items all) as [[items' a1] |] eqn:E; [| done].
  simpl in H. injection H as <- <-.
  rewrite for_each_fixed; [done |]. eapply for_each_settled; [| exact E].
  by apply Hs.
Qed.

Lemma py_iter_not_list (c : value) (items : list value) :
  (∀ l, c ≠ VList l) → py_iter c = Ok items →
  Forall (λ x, is_dict x = false) items.
Proof.
  intros Hc H. destruct c as [[| b | z | s] | l | d]; try done.
  - injection H as <-. apply Forall_forall. intros x Hx.
    apply list_elem_of_fmap in Hx as (ch & -> & _). done.
  - by destruct (Hc l).
  - injection H as <-. apply Forall_forall. intros x Hx.
    apply list_elem_of_fmap in Hx as (kv & -> & _). done.
Qed.

Lemma iter_step_settles (f : step) (c : value) :
  (∀ x a x' a', is_dict x = false → f x a = Ok (x', a') → x' = x ∧ a' = a) →
  (∀ items, py_iter c = Ok items → Forall (settles_at f) items) →
  settles_at (iter_step f) c.
Proof.
  intros Hk Hs all c' all' H b. unfold iter_step in *.
  destruct (py_iter c) as [items |] eqn:Hi; [| done]. simpl in H.
  destruct (for_each f items all) as [[items' a1] |] eqn:E; [| done].
  simpl in H. injection H as <- <-.
  assert (Forall (fixes f) items') as Hfix.
  { eapply for_each_settled; [| exact E]. by apply Hs. }
  destruct c as [a | l | d]; cbn [rebuild].
  - rewrite Hi. simpl.
    apply for_each_keeps in E as [-> ->]; [| done |].
    + by rewrite (for_each_fixed _ _ Hfix).
    + by apply (py_iter_not_list (VScalar a)).
  - simpl. by rewrite (for_each_fixed _ _ Hfix).
  - rewrite Hi. simpl.
    apply for_each_keeps in E as [-> ->]; [| done |].
    + by rewrite (for_each_fixed _ _ Hfix).
    + by apply (py_iter_not_list (VDict d)).
Qed.

(** Well-formed documents have well-formed parts. *)
Lemma value_wf_get (k : scalar) (d : dict) (c : value) :
  value_wf (VDict d) = true → dict_get k d = Some c → value_wf c = true.
Proof.
  simpl. intros H. apply andb_true_iff in H as [_ H].
  induction d as [| [k' v] d IH]; [done |]. simpl in H.
  apply andb_true_iff in H as [Hv H]. unfold dict_get. fold dict_get.
  destruct (scalar_eqb k' k); [congruence | by apply IH].
Qed.

Lemma value_wf_getitem (x c : value) (k : string) :
  value_wf x = true → py_getitem x k = Ok c → value_wf c = true.
Proof.
  intros Hx H. destruct x as [a | l | d]; try done.
  unfold py_getitem in H.
  destruct (dict_get (SStr k) d) as [c' |] eqn:E; [| done].
  injection H as <-. by eapply value_wf_get.
Qed.

Lemma value_wf_elements (l : list value) :
  value_wf (VList l) = true → Forall (λ x, value_wf x = true) l.
Proof.
  simpl. intros H. apply Forall_forall. intros x Hx.
  rewrite forallb_forall in H. apply H. by apply list_elem_of_In.
Qed.

Lemma value_wf_iter (c : value) (items : list value) :
  value_wf c = true → py_iter c = Ok items →
  Forall (λ x, value_wf x = true) items.
Proof.
  intros Hc H. destruct c as [[| b | z | s] | l | d]; try done.
  - injection H as <-. apply Forall_forall. intros x Hx.
    apply list_elem_of_fmap in Hx as (ch & -> & _). done.
  - injection H as <-. by apply value_wf_elements.
  - injection H as <-. apply Forall_forall. intros x Hx.
    apply list_elem_of_fmap in Hx as (kv & -> & _). done.
Qed.

Lemma dict_get_app (k : scalar) (d1 d2 : dict) :
  dict_get k (d1 ++ d2) =
    match dict_get k d1 with Some v => Some v | None => dict_get k d2 end.
Proof.
  induction d1 as [| [k' v] d1 IH]; [done |].
  simpl app. unfold dict_get. fold dict_get.
  by destruct (scalar_eqb k' k).
Qed.

Lemma migrated_needs_no_migration (d : dict) :
  dict_wf d = true → needs_migration (VDict d) = true →
  needs_migration (migrate_test_dict (VDict d)) = false.
Proof.
  intros Hwf Hneed. rewrite migrate_test_dict_unique by done.
  unfold needs_migration. rewrite dict_contains_app.
  replace (dict_contains (SStr "arguments")
             [(SStr "arguments", VDict (moved_fields d))]) with true
    by reflexivity.
  by rewrite orb_true_r.
Qed.

Lemma value_wf_dict (d : dict) :
  value_wf (VDict d) = true → dict_wf d = true.
Proof. simpl. intros H. by apply andb_true_iff in H as [H _]. Qed.

Lemma value_wf_single (k : scalar) (v : value) :
  value_wf (VDict [(k, v)]) = true → value_wf v = true.
Proof.
  intros H. apply (value_wf_get k [(k, v)]); [done |].
  unfold dict_get. by rewrite scalar_eqb_refl.
Qed.

Lemma process_entry_idem (test test' : value) (names : list value) :
  value_wf test = true →
  process_entry test = Ok (test', names) →
  process_entry test' = Ok (test', []).
Proof.
  intros Hwf H. pose proof H as H0. rewrite process_entry_unfold in H.
  destruct test as [a | l | d]; try (by injection H as <- <-).
  destruct d as [| [k v] [| kv d]]; try (by injection H as <- <-).
  - destruct (is_generic_test (VScalar k)) as [g |] eqn:Hg; [| done].
    simpl in H.
    destruct (g && is_dict v && needs_migration v) eqn:E.
    + injection H as <- <-.
      apply andb_true_iff in E as [E Hneed].
      apply andb_true_iff in E as [-> Hd].
      destruct v as [| | dv]; try done.
      assert (dict_wf dv = true) as Hdv
        by (by apply value_wf_dict, (value_wf_single k)).
      rewrite process_entry_unfold, Hg. simpl.
      rewrite migrated_needs_no_migration by done.
      by rewrite andb_false_r.
    + injection H as <- <-. rewrite process_entry_unfold, Hg. simpl.
      by rewrite E.
  - set (dd := (k, v) :: kv :: d) in *.
    assert (dict_wf dd = true) as Hdd by (by apply value_wf_dict).
    destruct (dict_contains (SStr "test_name") dd) eqn:Hc;
      [| by injection H as <- <-].
    destruct (py_getitem_contains _ _ Hc) as (x & Hx & Hget).
    rewrite Hget in H. simpl in H.
    destruct (is_generic_test x) as [g |] eqn:Hg; [| done]. simpl in H.
    destruct (g && needs_migration (VDict dd)) eqn:E.
    + injection H as <- <-. apply andb_true_iff in E as [-> Hneed].
      assert (is_str x = true) as Hs by (by rewrite <- is_generic_test_ok, Hg).
      rewrite migrate_test_dict_unique by done.
      assert (dict_get (SStr "test_name") (kept_fields dd) = Some x) as Hk.
      { rewrite kept_fields_get; [done |]. by apply key_in_reserved. }
      rewrite process_entry_unfold.
      assert (needs_migration
                (VDict (kept_fields dd ++
                          [(SStr "arguments", VDict (moved_fields dd))]))
              = false) as Hn.
      { rewrite <- migrate_test_dict_unique by done.
        by apply migrated_needs_no_migration. }
      assert (dict_get (SStr "test_name")
                (kept_fields dd ++
                   [(SStr "arguments", VDict (moved_fields dd))]) = Some x)
        as Hg'.
      { by rewrite dict_get_app, Hk. }
      destruct (kept_fields dd) as [| kv1 [| kv2 rest]]; [done | |].
      * simpl app. destruct kv1 as [k1 v1].
        replace (dict_contains (SStr "test_name")
                   [(k1, v1); (SStr "arguments", VDict (moved_fields dd))])
          with true by (symmetry; apply dict_contains_get; eauto).
        unfold py_getitem. simpl app in Hg'. rewrite Hg'. simpl.
        rewrite Hg. simpl. simpl app in Hn. by rewrite Hn.
      * simpl app. simpl app in Hg', Hn. destruct kv1 as [k1 v1].
        replace (dict_contains (SStr "test_name") _)
          with true by (symmetry; apply dict_contains_get; eauto).
        unfold py_getitem. rewrite Hg'. simpl.
        rewrite Hg. simpl. by rewrite Hn.
    + injection H as <- <-. rewrite process_entry_unfold.
      subst dd. rewrite Hc, Hget. simpl. rewrite Hg. simpl. by rewrite E.
Qed.

Lemma process_test_list_idem (tests_list out names : list value) :
  Forall (λ x, value_wf x = true) tests_list →
  process_test_list tests_list = Ok (out, names) →
  process_test_list out = Ok (out, []).
Proof.
  intros Hwf H.
  apply process_test_list_entries in H as (rs & Hrs & -> & _).
  apply process_test_list_entries.
  exists ((λ r, (r.1, [])) <$> rs). split; [| split].
  - apply Forall2_fmap_l, Forall2_fmap_r.
    apply Forall2_same_length_lookup. split; [done |].
    intros i [t ns] [t2 ns2] H1 H2. rewrite H1 in H2. injection H2 as <- <-.
    simpl.
    destruct (Forall2_lookup_r _ _ _ _ _ Hrs H1) as (t0 & Ht0 & He).
    eapply process_entry_idem; [| exact He].
    eapply Forall_lookup_1 in Hwf; [exact Hwf | exact Ht0].
  - rewrite <- list_fmap_compose. by apply list_fmap_ext.
  - clear. induction rs as [| r rs IH]; [done | by simpl].
Qed.

Lemma tests_step_settles (c : value) :
  value_wf c = true → settles_at tests_step c.
Proof.
  intros Hwf all c' all' H b. unfold tests_step in *.
  destruct c as [a | l | d]; try (by injection H as <- <-).
  destruct (process_test_list l) as [[mt mn] |] eqn:E; [| done].
  simpl in H. injection H as <- <-.
  rewrite (process_test_list_idem l mt mn); [| by apply value_wf_elements | done].
  simpl. by rewrite app_nil_r.
Qed.

(** The blocks of the walker are steps under keys. *)
Lemma migrate_test_key_at_key (k : string) (node : value)
    (all : list value) :
  migrate_test_key k node all = at_key k tests_step node all.
Proof.
  unfold migrate_test_key, at_key.
  destruct (py_in k node) as [[] |]; simpl; [| done | done].
  destruct node as [a | l | d]; try done. unfold py_getitem.
  destruct (dict_get (SStr k) d) as [c |] eqn:Hc; [| done]. simpl.
  destruct c as [a | tests_list | d']; simpl.
  - by rewrite dict_set_same.
  - by destruct (process_test_list tests_list) as [[mt mn] |].
  - by rewrite dict_set_same.
Qed.

Lemma chain_keys_app (kfs1 kfs2 : list (string * step)) (x : value)
    (all : list value) :
  chain_keys (kfs1 ++ kfs2) x all =
    '(x, all) ← chain_keys kfs1 x all; chain_keys kfs2 x all.
Proof.
  revert x all. induction kfs1 as [| [k f] kfs1 IH]; intros x all; [done |].
  simpl app. rewrite !chain_keys_cons.
  destruct (at_key k f x all) as [[x1 a1] |]; [| done]. simpl. apply IH.
Qed.

Lemma chain_keys_single (k : string) (f : step) (x : value)
    (all : list value) :
  chain_keys [(k, f)] x all = at_key k f x all.
Proof.
  rewrite chain_keys_cons.
  by destruct (at_key k f x all) as [[x1 a1] |].
Qed.

Lemma migrate_node_tests_chain (node : value) (all : list value) :
  migrate_node_tests node all = chain_keys node_steps node all.
Proof.
  unfold migrate_node_tests, node_steps.
  rewrite chain_keys_cons, <- migrate_test_key_at_key.
  assert (∀ x a, chain_keys [("data_tests", tests_step)] x a =
                 migrate_test_key "data_tests" x a) as Hlast.
  { intros x a. by rewrite chain_keys_single, migrate_test_key_at_key. }
  destruct (py_in "tests" node) as [[] | e] eqn:E1; simpl.
  - destruct (migrate_test_key "tests" node all) as [[n a] |]; [| done].
    simpl. by rewrite Hlast.
  - destruct (py_in "data_tests" node) as [[] | e] eqn:E2; simpl.
    + destruct (migrate_test_key "tests" node all) as [[n a] |]; [| done].
      simpl. by rewrite Hlast.
    + unfold migrate_test_key at 1. rewrite E1. simpl. rewrite Hlast.
      unfold migrate_test_key. by rewrite E2.
    + unfold migrate_test_key at 1. rewrite E1. simpl. rewrite Hlast.
      unfold migrate_test_key. by rewrite E2.
  - unfold migrate_test_key. by rewrite E1.
Qed.

Lemma migrate_columns_at_key (node : value) (all : list value) :
  migrate_columns node all =
    at_key "columns" (list_step migrate_node_tests) node all.
Proof.
  unfold migrate_columns, at_key.
  destruct (py_in "columns" node) as [[] |]; simpl; [| done | done].
  destruct node as [a | l | d]; try done. unfold py_getitem.
  destruct (dict_get (SStr "columns") d) as [c |] eqn:Hc; [| done]. simpl.
  destruct c as [a | cols | d']; simpl.
  - by rewrite dict_set_same.
  - by destruct (for_each migrate_node_tests cols all) as [[cols' a'] |].
  - by rewrite dict_set_same.
Qed.

Lemma migrate_table_chain (table : value) (all : list value) :
  migrate_table table all = chain_keys table_steps table all.
Proof.
  unfold migrate_table, table_steps.
  rewrite chain_keys_app, <- migrate_node_tests_chain.
  destruct (migrate_node_tests table all) as [[t a] |]; [| done]. simpl.
  by rewrite chain_keys_single, migrate_columns_at_key.
Qed.

Lemma migrate_resource_chain (resource_type : string) (resource : value)
    (all : list value) :
  migrate_resource resource_type resource all =
    chain_keys (resource_steps resource_type) resource all.
Proof.
  unfold migrate_resource, resource_steps, table_steps.
  rewrite !chain_keys_app, <- migrate_node_tests_chain.
  destruct (migrate_node_tests resource all) as [[r a] |]; [| done]. simpl.
  rewrite chain_keys_single, <- migrate_columns_at_key.
  destruct (migrate_columns r a) as [[r' a'] |]; [| done]. simpl.
  unfold migrate_tables.
  destruct (String.eqb resource_type "sources"); [| done].
  rewrite chain_keys_single. unfold at_key.
  destruct (py_in "tables" r') as [[] |]; simpl; [| done | done].
  destruct (py_getitem r' "tables") as [tables |]; [| done]. simpl.
  unfold iter_step.
  destruct (py_iter tables) as [items |]; [| done]. simpl.
  by destruct (for_each migrate_table items a') as [[items' a''] |].
Qed.

Lemma migrate_resource_type_at_key (resource_type : string) (content : value)
    (all : list value) :
  migrate_resource_type resource_type content all =
    at_key resource_type (iter_step (migrate_resource resource_type))
      content all.
Proof.
  unfold migrate_resource_type, at_key.
  destruct (py_in resource_type content) as [[] |]; simpl; [| done | done].
  destruct (py_getitem content resource_type) as [resources |]; [| done].
  simpl. unfold iter_step.
  destruct (py_iter resources) as [items |]; [| done]. simpl.
  by destruct (for_each (migrate_resource resource_type) items all)
    as [[items' a'] |].
Qed.

Lemma for_resource_types_chain (types : list string) :
  ∀ content all,
  for_resource_types types content all =
    chain_keys
      (map (λ rt, (rt, iter_step (migrate_resource rt))) types) content all.
Proof.
  induction types as [| rt types IH]; intros content all; [done |].
  simpl map. rewrite chain_keys_cons. simpl.
  rewrite migrate_resource_type_at_key.
  destruct (at_key rt _ content all) as [[c a] |]; [| done]. simpl. apply IH.
Qed.

Lemma process_yaml_content_chain (content : value) (file_path : string) :
  process_yaml_content content file_path =
    chain_keys content_steps content [].
Proof. apply for_resource_types_chain. Qed.

Lemma node_steps_settle (x : value) :
  value_wf x = true → settles_at (chain_keys node_steps) x.
Proof.
  intros Hwf. apply chain_keys_settles.
  - unfold node_steps. simpl. repeat constructor; set_solver.
  - intros k f c Hin Hc. unfold node_steps in Hin.
    assert (f = tests_step) as ->.
    { repeat (apply elem_of_cons in Hin as [[= _ ->] | Hin]; [done |]).
      inversion Hin. }
    apply tests_step_settles. by eapply value_wf_getitem.
Qed.

Lemma migrate_node_tests_settles (x : value) :
  value_wf x = true → settles_at migrate_node_tests x.
Proof.
  intros Hwf. apply (settles_at_ext _ (chain_keys node_steps)).
  - apply migrate_node_tests_chain.
  - by apply node_steps_settle.
Qed.

Lemma columns_step_settles (c : value) :
  value_wf c = true → settles_at (list_step migrate_node_tests) c.
Proof.
  intros Hwf. apply list_step_settles. intros items ->.
  eapply Forall_impl; [by apply value_wf_elements |].
  intros x Hx. by apply migrate_node_tests_settles.
Qed.

Lemma table_steps_settle (x : value) :
  value_wf x = true → settles_at (chain_keys table_steps) x.
Proof.
  intros Hwf. apply chain_keys_settles.
  - unfold table_steps, node_steps. simpl. repeat constructor; set_solver.
  - intros k f c Hin Hc.
    assert (value_wf c = true) as Hwc by (by eapply value_wf_getitem).
    unfold table_steps, node_steps in Hin. simpl in Hin.
    apply elem_of_cons in Hin as [[= _ ->] | Hin];
      [by apply tests_step_settles |].
    apply elem_of_cons in Hin as [[= _ ->] | Hin];
      [by apply tests_step_settles |].
    apply elem_of_cons in Hin as [[= _ ->] | Hin];
      [by apply columns_step_settles |].
    inversion Hin.
Qed.

Lemma migrate_table_settles (x : value) :
  value_wf x = true → settles_at migrate_table x.
Proof.
  intros Hwf. apply (settles_at_ext _ (chain_keys table_steps)).
  - apply migrate_table_chain.
  - by apply table_steps_settle.
Qed.

Lemma migrate_table_keeps (x : value) (a : list value) (x' : value)
    (a' : list value) :
  is_dict x = false → migrate_table x a = Ok (x', a') → x' = x ∧ a' = a.
Proof.
  intros Hx H. rewrite migrate_table_chain in H.
  by eapply chain_keys_not_dict.
Qed.

Lemma migrate_resource_keeps (rt : string) (x : value) (a : list value)
    (x' : value) (a' : list value) :
  is_dict x = false → migrate_resource rt x a = Ok (x', a') →
  x' = x ∧ a' = a.
Proof.
  intros Hx H. rewrite migrate_resource_chain in H.
  by eapply chain_keys_not_dict.
Qed.

Lemma tables_step_settles (c : value) :
  value_wf c = true → settles_at (iter_step migrate_table) c.
Proof.
  intros Hwf. apply iter_step_settles.
  - apply migrate_table_keeps.
  - intros items Hi. eapply Forall_impl; [by eapply value_wf_iter |].
    intros x Hx. by apply migrate_table_settles.
Qed.

Lemma resource_steps_settle (rt : string) (x : value) :
  value_wf x = true → settles_at (chain_keys (resource_steps rt)) x.
Proof.
  intros Hwf. apply chain_keys_settles.
  - unfold resource_steps, table_steps, node_steps.
    destruct (String.eqb rt "sources"); simpl; repeat constructor;
      set_solver.
  - intros k f c Hin Hc.
    assert (value_wf c = true) as Hwc by (by eapply value_wf_getitem).
    unfold resource_steps, table_steps, node_steps in Hin.
    simpl in Hin.
    apply elem_of_cons in Hin as [[= _ ->] | Hin];
      [by apply tests_step_settles |].
    apply elem_of_cons in Hin as [[= _ ->] | Hin];
      [by apply tests_step_settles |].
    apply elem_of_cons in Hin as [[= _ ->] | Hin];
      [by apply columns_step_settles |].
    destruct (String.eqb rt "sources"); [| inversion Hin].
    apply elem_of_cons in Hin as [[= _ ->] | Hin];
      [by apply tables_step_settles |].
    inversion Hin.
Qed.

Lemma migrate_resource_settles (rt : string) (x : value) :
  value_wf x = true → settles_at (migrate_resource rt) x.
Proof.
  intros Hwf. apply (settles_at_ext _ (chain_keys (resource_steps rt))).
  - apply migrate_resource_chain.
  - by apply resource_steps_settle.
Qed.

Lemma content_steps_settle (content : value) :
  value_wf content = true → settles_at (chain_keys content_steps) content.
Proof.
  intros Hwf. apply chain_keys_settles.
  - unfold content_steps. simpl. repeat constructor; set_solver.
  - intros k f c Hin Hc.
    assert (value_wf c = true) as Hwc by (by eapply value_wf_getitem).
    unfold content_steps in Hin.
    apply list_elem_of_fmap in Hin as (rt & [= -> ->] & _).
    apply iter_step_settles.
    + apply migrate_resource_keeps.
    + intros items Hi. eapply Forall_impl; [by eapply value_wf_iter |].
      intros x Hx. by apply migrate_resource_settles.
Qed.

Lemma already_migrated_passes (test : value) :
  already_migrated test → name_is_str test = true → passes_through test.
Proof.
  intros (d & -> & H) Hname. apply passes_through_entry.
  pose proof (process_entry_ok (VDict d)) as Hok. rewrite Hname in Hok.
  rewrite process_entry_unfold in *.
  destruct d as [| [k v] [| kv d]].
  - done.
  - destruct (is_generic_test (VScalar k)) as [g |] eqn:Hg; [| done]. simpl.
    destruct H as [H | (k' & f & [= <- ->] & H)].
    + unfold has_key, keys in H. simpl in H.
      apply list_elem_of_singleton in H as <-.
      by rewrite is_generic_test_str in Hg; injection Hg as <-.
    + apply dict_contains_keys in H.
      unfold needs_migration. rewrite H. by rewrite andb_false_r.
  - destruct H as [H | (k' & f & [=] & _)].
    apply dict_contains_keys in H.
    destruct (dict_contains (SStr "test_name") _); [| done].
    destruct (py_getitem _ _) as [x |]; [| done]. simpl in *.
    destruct (is_generic_test x) as [g |]; [| done]. simpl.
    unfold needs_migration. rewrite H. by rewrite andb_false_r.
Qed.

(** C4.  On a document whose mappings have distinct keys: when the walker
    returns, running it on its result returns the same document and no
    name.  So does the list processor on its own output, every entry of
    which it passes through.  And a declaration that already has an
    [arguments] key is passed through, with no name recorded, when its name
    is a string; in a list that has been processed, every such declaration
    was. *)
Theorem process_yaml_content_idempotent
    (content content' : value) (names : list value) (file_path : string) :
  value_wf content = true →
  process_yaml_content content file_path = Ok (content', names) →
  process_yaml_content content' file_path = Ok (content', []) ∧
  (∀ tests_list out recorded,
     Forall (λ x, value_wf x = true) tests_list →
     process_test_list tests_list = Ok (out, recorded) →
     process_test_list out = Ok (out, []) ∧
     (∀ test, test ∈ out → passes_through test) ∧
     (∀ test, test ∈ tests_list → already_migrated test →
              passes_through test)) ∧
  (∀ test, already_migrated test → name_is_str test = true →
           passes_through test ∧
           process_test_list [test] = Ok ([test], [])).
Proof.
  intros Hwf H. split; [| split].
  - rewrite process_yaml_content_chain in *.
    by apply (content_steps_settle content Hwf [] content' names).
  - intros tests_list out recorded Hl Hp.
    pose proof (process_test_list_idem _ _ _ Hl Hp) as Hidem.
    split; [done |]. split.
    + intros test Hin.
      apply process_test_list_entries in Hidem as (rs & Hrs & Hout & Hn).
      apply list_elem_of_lookup in Hin as [i Hi].
      destruct (Forall2_lookup_l _ _ _ _ _ Hrs Hi) as ([t ns] & Hr & He).
      apply passes_through_entry. rewrite He. f_equal.
      assert (t = test) as ->.
      { rewrite Hout, list_lookup_fmap, Hr in Hi. by injection Hi. }
      f_equal. symmetry in Hn.
      assert (ns ∈ rs.*2) as Hns.
      { apply list_elem_of_fmap. exists (test, ns). split; [done |].
        by eapply list_elem_of_lookup_2. }
      clear -Hn Hns. induction (rs.*2) as [| x l IH]; [inversion Hns |].
      simpl in Hn. apply app_eq_nil in Hn as [-> Hn].
      apply elem_of_cons in Hns as [-> | Hns]; auto.
    + intros test Hin Ham. apply already_migrated_passes; [done |].
      pose proof (process_tests_ok tests_list [] []) as Hok.
      unfold process_test_list in Hp. rewrite Hp in Hok. simpl in Hok.
      symmetry in Hok. rewrite forallb_forall in Hok. apply Hok.
      by apply list_elem_of_In.
  - intros test Ham Hname.
    pose proof (already_migrated_passes test Ham Hname) as Hpass.
    split; [done |]. unfold process_test_list, process_tests.
    by rewrite (Hpass [] []).
Qed.

Lemma process_yaml_content_idempotent_witness :
  ∃ content',
    process_yaml_content document_mixed "models/schema.yml" =
      Ok (content', [VStr "accepted_values"; VStr "dbt_utils.equality"]) ∧
    process_yaml_content content' "models/schema.yml" = Ok (content', []).
Proof.
  eexists. split; [vm_compute; reflexivity |].
  eapply (process_yaml_content_idempotent document_mixed);
    [reflexivity | vm_compute; reflexivity].
Defined.

(** C4 as worded fails for declarations whose name is not a string: with
    the integer 5 under [test_name], or as the only key, a declaration that
    has an [arguments] key is not passed through; the classifier raises
    before the [arguments] key is looked at, and the walker has no result
    on a document that holds it. *)
Lemma already_migrated_counterexample :
  (already_migrated int_named_migrated ∧
   value_wf int_named_migrated = true ∧
   ¬ passes_through int_named_migrated ∧
   process_test_list [int_named_migrated] = Raise TypeError) ∧
  (already_migrated int_key_migrated ∧
   value_wf int_key_migrated = true ∧
   ¬ passes_through int_key_migrated ∧
   process_test_list [int_key_migrated] = Raise TypeError) ∧
  process_yaml_content (model_with [int_named_migrated]) "models/schema.yml"
    = Raise TypeError.
Proof.
  split; [| split].
  - split; [| split; [reflexivity | split; [| reflexivity]]].
    + eexists. split; [reflexivity |]. left. by apply dict_contains_keys.
    + intros H. specialize (H [] []). by vm_compute in H.
  - split; [| split; [reflexivity | split; [| reflexivity]]].
    + eexists. split; [reflexivity |]. right. eexists _, _.
      split; [reflexivity |]. by apply dict_contains_keys.
    + intros H. specialize (H [] []). by vm_compute in H.
  - reflexivity.
Qed.

(** * Further properties of the code *)

(** ** The restructurer, again *)

Lemma dict_set_nonempty (k : scalar) (v : value) (d : dict) :
  dict_set k v d ≠ [].
Proof. destruct d as [| [k' v'] d]; simpl; [done |]. by destruct (scalar_eqb k' k). Qed.

Lemma migrate_items_arguments_nonempty (items : dict) :
  ∀ new_dict arguments,
  arguments ≠ [] ∨ existsb (λ kv, negb (key_in kv.1 reserved_keys)) items = true →
  (migrate_items items new_dict arguments).2 ≠ [].
Proof.
  induction items as [| [k v] items IH]; intros nd args H; simpl in *.
  - by destruct H.
  - destruct (key_in k reserved_keys); simpl in H.
    + apply IH. tauto.
    + apply IH. left. apply dict_set_nonempty.
Qed.

Lemma migrate_test_dict_unneeded (x : value) :
  needs_migration x = false → migrate_test_dict x = x.
Proof. intros H. unfold migrate_test_dict. by rewrite H. Qed.

Lemma migrate_test_dict_has_arguments (d : dict) :
  needs_migration (VDict d) = true →
  ∃ d', migrate_test_dict (VDict d) = VDict d' ∧
        dict_contains (SStr "arguments") d' = true.
Proof.
  intros H. unfold migrate_test_dict. rewrite H. cbn [negb].
  pose proof (migrate_items_arguments_nonempty d [] []) as Hargs.
  destruct (migrate_items d [] []) as [nd args]. simpl in Hargs.
  assert (args ≠ []) as Hne.
  { apply Hargs. right. unfold needs_migration in H.
    by destruct (dict_contains (SStr "arguments") d). }
  assert (truthy (VDict args) = true) as -> by (by destruct args).
  eexists. split; [reflexivity |]. apply dict_contains_set.
Qed.

Lemma migrate_test_dict_result_settled (x : value) :
  needs_migration (migrate_test_dict x) = false.
Proof.
  destruct (needs_migration x) eqn:E.
  - destruct x as [a | l | d]; try done.
    destruct (migrate_test_dict_has_arguments d E) as (d' & -> & Hc).
    unfold needs_migration. by rewrite Hc.
  - by rewrite migrate_test_dict_unneeded.
Qed.

(** X1.  Whatever it is given, [migrate_test_dict] returns a value that
    needs no migration, and applying it twice is applying it once; a value
    that needs no migration comes back as it is. *)
Theorem migrate_test_dict_idempotent (x : value) :
  needs_migration (migrate_test_dict x) = false ∧
  migrate_test_dict (migrate_test_dict x) = migrate_test_dict x ∧
  (needs_migration x = false → migrate_test_dict x = x) ∧
  (needs_migration x = true → migrate_test_dict x ≠ x).
Proof.
  split; [apply migrate_test_dict_result_settled |].
  split; [apply migrate_test_dict_unneeded,
            migrate_test_dict_result_settled |].
  split; [apply migrate_test_dict_unneeded |].
  intros H E. pose proof (migrate_test_dict_result_settled x) as H'.
  rewrite E in H'. congruence.
Qed.

(** ** The check-list processor, again *)

Lemma process_tests_accumulate (tests_list : list value) :
  ∀ mt mn,
  process_tests tests_list mt mn =
    '(out, names) ← process_tests tests_list [] [];
    Ok (mt ++ out, mn ++ names).
Proof.
  induction tests_list as [| test rest IH]; intros mt mn; simpl.
  - by rewrite !app_nil_r.
  - rewrite (process_test_entry test mt mn), (process_test_entry test [] []).
    destruct (process_entry test) as [[t ns] |]; [| done]. simpl.
    rewrite (IH (mt ++ [t]) (mn ++ ns)), (IH [t] ns).
    destruct (process_tests rest [] []) as [[o n] |]; [| done]. simpl.
    by rewrite <- !app_assoc.
Qed.

Lemma process_tests_app (l1 l2 : list value) :
  ∀ mt mn,
  process_tests (l1 ++ l2) mt mn =
    '(mt', mn') ← process_tests l1 mt mn; process_tests l2 mt' mn'.
Proof.
  induction l1 as [| test rest IH]; intros mt mn; simpl; [done |].
  destruct (process_test test mt mn) as [[mt' mn'] |]; [| done]. simpl.
  apply IH.
Qed.

Lemma process_test_list_app_eq (l1 l2 : list value) :
  process_test_list (l1 ++ l2) =
    '(out1, names1) ← process_test_list l1;
    '(out2, names2) ← process_test_list l2;
    Ok (out1 ++ out2, names1 ++ names2).
Proof.
  unfold process_test_list. rewrite process_tests_app.
  destruct (process_tests l1 [] []) as [[o1 n1] |]; [| done]. simpl.
  by rewrite process_tests_accumulate.
Qed.

(** X2.  [process_test_list] works entry by entry: on a concatenation it
    gives the concatenation of the outputs and of the recorded names, and it
    raises what the first failing part raises. *)
Theorem process_test_list_app (l1 l2 : list value) :
  process_test_list (l1 ++ l2) =
    match process_test_list l1 with
    | Raise e => Raise e
    | Ok (out1, names1) =>
        match process_test_list l2 with
        | Raise e => Raise e
        | Ok (out2, names2) => Ok (out1 ++ out2, names1 ++ names2)
        end
    end.
Proof.
  rewrite process_test_list_app_eq.
  destruct (process_test_list l1) as [[o1 n1] |]; [| done]. simpl.
  by destruct (process_test_list l2) as [[o2 n2] |].
Qed.

(** An entry either comes out as it is, with no name, or comes out changed,
    with its own name, a string. *)
Lemma process_entry_changed (test test' : value) (names : list value) :
  process_entry test = Ok (test', names) →
  (test' = test ∧ names = []) ∨
  (test' ≠ test ∧ test' = replacement test ∧
   ∃ name, names = [VStr name] ∧ entry_name test = Some (VStr name) ∧
           is_generic_test (VStr name) = Ok true).
Proof.
  rewrite process_entry_unfold. unfold replacement, entry_name.
  destruct test as [a | l | d]; try (intros [= <- <-]; by left).
  destruct d as [| [k v] [| kv d]]; try (intros [= <- <-]; by left).
  - destruct (is_generic_test (VScalar k)) as [g |] eqn:Hg; simpl; [| done].
    destruct (g && is_dict v && needs_migration v) eqn:E;
      intros [= <- <-]; [right | by left].
    apply andb_true_iff in E as [E Hneed].
    apply andb_true_iff in E as [-> _].
    split; [| split; [done |]].
    + intros [= Heq].
      pose proof (migrate_test_dict_result_settled v) as H.
      rewrite Heq in H. congruence.
    + assert (is_str (VScalar k) = true) as Hs
        by (by rewrite <- is_generic_test_ok, Hg).
      destruct k; try discriminate. eauto.
  - destruct (dict_contains (SStr "test_name") ((k, v) :: kv :: d)) eqn:E;
      [| intros [= <- <-]; by left].
    apply py_getitem_contains in E as (x & Hx & ->). simpl.
    destruct (is_generic_test x) as [g |] eqn:Hg; simpl; [| done].
    destruct (g && needs_migration (VDict ((k, v) :: kv :: d))) eqn:E;
      intros [= <- <-]; [right | by left].
    apply andb_true_iff in E as [-> Hneed].
    split; [| split; [done |]].
    + intros Heq.
      pose proof (migrate_test_dict_result_settled
                    (VDict ((k, v) :: kv :: d))) as H.
      rewrite Heq in H. congruence.
    + assert (is_str x = true) as Hs by (by rewrite <- is_generic_test_ok, Hg).
      destruct x as [[] | |]; try discriminate. eauto.
Qed.

Lemma process_entries_names (tests_list : list value)
    (rs : list (value * list value)) :
  Forall2 (λ test r, process_entry test = Ok r) tests_list rs →
  (concat rs.*2 = [] ↔ rs.*1 = tests_list) ∧
  (length (concat rs.*2) ≤ length tests_list)%nat ∧
  Forall (λ n, ∃ test, test ∈ tests_list ∧ entry_name test = Some n ∧
                      is_str n = true) (concat rs.*2).
Proof.
  induction 1 as [| test [t ns] l rs Hr _ IH].
  - split; [done |]. split; [done | constructor].
  - destruct IH as (IH1 & IH2 & IH3).
    rewrite !fmap_cons. cbn [concat fst snd length].
    assert (Forall (λ n, ∃ test0, test0 ∈ test :: l ∧
                                  entry_name test0 = Some n ∧
                                  is_str n = true) (concat rs.*2)) as IH3'.
    { eapply Forall_impl; [exact IH3 |].
      intros n (t' & Hin & Hn). exists t'. split; [by right | done]. }
    apply process_entry_changed in Hr
      as [[-> ->] | (Hne & _ & name & -> & Hname & _)].
    + cbn [app]. split; [| split; [lia | done]].
      rewrite IH1. split; [congruence | by intros [= ->]].
    + cbn [app length]. split; [| split; [lia |]].
      * split; [done | by intros [= -> _]].
      * constructor; [| done]. exists test. split; [left | done].
Qed.



(** ** The walker, again *)

Lemma appends_names_ext (f g : step) :
  (∀ x all, f x all = g x all) → appends_names g → appends_names f.
Proof. intros E H x all x' all' Hf. rewrite E in Hf. by apply H. Qed.

Lemma tests_step_appends : appends_names tests_step.
Proof.
  intros c all c' all' H. unfold tests_step in H.
  destruct c as [a | l | d];
    try (injection H as <- <-; exists []; by rewrite app_nil_r).
  destruct (process_test_list l) as [[mt mn] |] eqn:E; [| done].
  simpl in H. injection H as <- <-.
  apply process_test_list_entries in E as (rs & Hrs & -> & ->).
  destruct (process_entries_names l rs Hrs) as (H1 & _ & H3).
  exists (concat rs.*2). split; [done |]. split.
  - eapply Forall_impl; [exact H3 |]. by intros n (_ & _ & _ & Hn).
  - intros Hn. f_equal. by apply H1.
Qed.

Lemma at_key_appends (k : string) (f : step) :
  appends_names f → appends_names (at_key k f).
Proof.
  intros Hf x all x' all' H.
  apply at_key_result in H
    as [(_ & -> & ->) | (d & c & c' & -> & Hc & Hr & ->)].
  - exists []. by rewrite app_nil_r.
  - destruct (Hf _ _ _ _ Hr) as (ns & -> & Hs & Hsame).
    exists ns. split; [done |]. split; [done |].
    intros Hn. rewrite (Hsame Hn). by rewrite dict_set_same.
Qed.

Lemma chain_keys_appends (kfs : list (string * step)) :
  Forall (λ kf, appends_names kf.2) kfs → appends_names (chain_keys kfs).
Proof.
  induction 1 as [| [k f] kfs Hf _ IH]; intros x all x' all' H.
  - injection H as <- <-. exists []. by rewrite app_nil_r.
  - rewrite chain_keys_cons in H.
    destruct (at_key k f x all) as [[x1 a1] |] eqn:E; [| done]. simpl in H.
    destruct (at_key_appends k f Hf _ _ _ _ E) as (ns1 & -> & Hs1 & Hsame1).
    destruct (IH _ _ _ _ H) as (ns2 & -> & Hs2 & Hsame2).
    exists (ns1 ++ ns2). split; [by rewrite app_assoc |].
    split; [by apply Forall_app |].
    intros Hn. apply app_eq_nil in Hn as [Hn1 Hn2].
    rewrite (Hsame2 Hn2). by apply Hsame1.
Qed.

Lemma for_each_appends (f : step) (items : list value) :
  appends_names f →
  ∀ all items' all', for_each f items all = Ok (items', all') →
  length items' = length items ∧
  ∃ names, all' = all ++ names ∧
           Forall (λ n, is_str n = true) names ∧
           (names = [] → items' = items).
Proof.
  intros Hf. induction items as [| x items IH]; intros all items' all' H;
    simpl in H.
  - injection H as <- <-. split; [done |]. exists []. by rewrite app_nil_r.
  - destruct (f x all) as [[x1 a1] |] eqn:E; [| done]. simpl in H.
    destruct (for_each f items a1) as [[rest a2] |] eqn:E'; [| done].
    simpl in H. injection H as <- <-.
    destruct (Hf _ _ _ _ E) as (ns1 & -> & Hs1 & Hsame1).
    destruct (IH _ _ _ E') as (Hlen & ns2 & -> & Hs2 & Hsame2).
    split; [simpl; by rewrite Hlen |].
    exists (ns1 ++ ns2). split; [by rewrite app_assoc |].
    split; [by apply Forall_app |].
    intros Hn. apply app_eq_nil in Hn as [Hn1 Hn2].
    by rewrite (Hsame1 Hn1), (Hsame2 Hn2).
Qed.

Lemma list_step_appends (f : step) :
  appends_names f → appends_names (list_step f).
Proof.
  intros Hf c all c' all' H. unfold list_step in H.
  destruct c as [a | l | d];
    try (injection H as <- <-; exists []; by rewrite app_nil_r).
  destruct (for_each f l all) as [[l' a1] |] eqn:E; [| done]. simpl in H.
  injection H as <- <-.
  destruct (for_each_appends f l Hf _ _ _ E) as (_ & ns & -> & Hs & Hsame).
  exists ns. split; [done |]. split; [done |]. intros Hn. by rewrite Hsame.
Qed.

Lemma iter_step_appends (f : step) :
  appends_names f → appends_names (iter_step f).
Proof.
  intros Hf c all c' all' H. unfold iter_step in H.
  destruct (py_iter c) as [items |] eqn:Hi; [| done]. simpl in H.
  destruct (for_each f items all) as [[items' a1] |] eqn:E; [| done].
  simpl in H. injection H as <- <-.
  destruct (for_each_appends f items Hf _ _ _ E) as (_ & ns & -> & Hs & Hsame).
  exists ns. split; [done |]. split; [done |]. intros Hn.
  rewrite (Hsame Hn). destruct c as [a | l | d]; try done.
  by injection Hi as ->.
Qed.

Lemma migrate_node_tests_appends : appends_names migrate_node_tests.
Proof.
  apply (appends_names_ext _ (chain_keys node_steps)).
  - apply migrate_node_tests_chain.
  - apply chain_keys_appends. unfold node_steps.
    repeat constructor; apply tests_step_appends.
Qed.

Lemma table_steps_append :
  Forall (λ kf : string * step, appends_names kf.2) table_steps.
Proof.
  unfold table_steps, node_steps. simpl.
  repeat constructor; try apply tests_step_appends.
  apply list_step_appends, migrate_node_tests_appends.
Qed.

Lemma migrate_table_appends : appends_names migrate_table.
Proof.
  apply (appends_names_ext _ (chain_keys table_steps)).
  - apply migrate_table_chain.
  - apply chain_keys_appends, table_steps_append.
Qed.

Lemma migrate_resource_appends (rt : string) :
  appends_names (migrate_resource rt).
Proof.
  apply (appends_names_ext _ (chain_keys (resource_steps rt))).
  - apply migrate_resource_chain.
  - apply chain_keys_appends. unfold resource_steps.
    apply Forall_app. split; [apply table_steps_append |].
    destruct (String.eqb rt "sources"); repeat constructor.
    apply iter_step_appends, migrate_table_appends.
Qed.




Lemma raises_ext (f g : step) :
  (∀ x all, f x all = g x all) →
  raises_type_error_only g → raises_type_error_only f.
Proof. intros E H x all e Hf. rewrite E in Hf. by eapply H. Qed.

Lemma py_in_raise (k : string) (x : value) (e : exn) :
  py_in k x = Raise e → e = TypeError.
Proof. destruct x as [[] | |]; simpl; congruence. Qed.

Lemma py_iter_raise (x : value) (e : exn) :
  py_iter x = Raise e → e = TypeError.
Proof. destruct x as [[] | |]; simpl; congruence. Qed.

(** The subscript is guarded by the membership test, so no [KeyError]. *)
Lemma py_getitem_guarded (k : string) (x : value) (e : exn) :
  py_in k x = Ok true → py_getitem x k = Raise e → e = TypeError.
Proof.
  destruct x as [a | l | d]; unfold py_getitem; try congruence.
  simpl. intros [= Hc]. apply dict_contains_get in Hc as [c ->]. done.
Qed.

Lemma tests_step_raises : raises_type_error_only tests_step.
Proof.
  intros c all e H. unfold tests_step in H.
  destruct c as [a | l | d]; try done.
  destruct (process_test_list l) as [[mt mn] |] eqn:E; [done |].
  simpl in H. injection H as <-. by eapply process_tests_raise.
Qed.

Lemma at_key_raises (k : string) (f : step) :
  raises_type_error_only f → raises_type_error_only (at_key k f).
Proof.
  intros Hf x all e H. unfold at_key in H.
  destruct (py_in k x) as [[] | e'] eqn:Hin; simpl in H; [| done |].
  - destruct (py_getitem x k) as [c | e'] eqn:Hc; simpl in H.
    + destruct (f c all) as [[c' a'] | e'] eqn:E; [done |]. simpl in H.
      injection H as <-. by eapply Hf.
    + injection H as <-. by eapply py_getitem_guarded.
  - injection H as <-. by eapply py_in_raise.
Qed.

Lemma chain_keys_raises (kfs : list (string * step)) :
  Forall (λ kf, raises_type_error_only kf.2) kfs →
  raises_type_error_only (chain_keys kfs).
Proof.
  induction 1 as [| [k f] kfs Hf _ IH]; intros x all e H; [done |].
  rewrite chain_keys_cons in H.
  destruct (at_key k f x all) as [[x1 a1] | e'] eqn:E; simpl in H.
  - by eapply IH.
  - injection H as <-. exact (at_key_raises k f Hf _ _ _ E).
Qed.

Lemma for_each_raises (f : step) (items : list value) :
  raises_type_error_only f →
  ∀ all e, for_each f items all = Raise e → e = TypeError.
Proof.
  intros Hf. induction items as [| x items IH]; intros all e H; [done |].
  simpl in H. destruct (f x all) as [[x1 a1] | e'] eqn:E; simpl in H.
  - destruct (for_each f items a1) as [[rest a2] | e'] eqn:E'; [done |].
    simpl in H. injection H as <-. by eapply IH.
  - injection H as <-. by eapply Hf.
Qed.

Lemma list_step_raises (f : step) :
  raises_type_error_only f → raises_type_error_only (list_step f).
Proof.
  intros Hf c all e H. unfold list_step in H.
  destruct c as [a | l | d]; try done.
  destruct (for_each f l all) as [[l' a1] | e'] eqn:E; [done |].
  simpl in H. injection H as <-. by eapply for_each_raises.
Qed.

Lemma iter_step_raises (f : step) :
  raises_type_error_only f → raises_type_error_only (iter_step f).
Proof.
  intros Hf c all e H. unfold iter_step in H.
  destruct (py_iter c) as [items | e'] eqn:Hi; simpl in H.
  - destruct (for_each f items all) as [[l' a1] | e'] eqn:E; [done |].
    simpl in H. injection H as <-. by eapply for_each_raises.
  - injection H as <-. by eapply py_iter_raise.
Qed.

Lemma table_steps_raise :
  Forall (λ kf : string * step, raises_type_error_only kf.2) table_steps.
Proof.
  unfold table_steps, node_steps. simpl.
  repeat constructor; try apply tests_step_raises.
  apply list_step_raises.
  apply (raises_ext _ (chain_keys node_steps)).
  - apply migrate_node_tests_chain.
  - apply chain_keys_raises. unfold node_steps.
    repeat constructor; apply tests_step_raises.
Qed.

Lemma migrate_resource_raises (rt : string) :
  raises_type_error_only (migrate_resource rt).
Proof.
  apply (raises_ext _ (chain_keys (resource_steps rt))).
  - apply migrate_resource_chain.
  - apply chain_keys_raises. unfold resource_steps.
    apply Forall_app. split; [apply table_steps_raise |].
    destruct (String.eqb rt "sources"); repeat constructor.
    apply iter_step_raises.
    apply (raises_ext _ (chain_keys table_steps)).
    + apply migrate_table_chain.
    + apply chain_keys_raises, table_steps_raise.
Qed.

(** X5.  The only exception the walker raises is [TypeError]: every
    subscript is guarded by a membership test, so a missing key never
    surfaces as [KeyError]. *)
Theorem process_yaml_content_raises_type_error
    (content : value) (file_path : string) (e : exn) :
  process_yaml_content content file_path = Raise e → e = TypeError.
Proof.
  rewrite process_yaml_content_chain.
  apply chain_keys_raises. unfold content_steps. apply Forall_fmap.
  apply Forall_forall. intros rt _. simpl.
  apply iter_step_raises, migrate_resource_raises.
Qed.

Lemma process_yaml_content_raises_type_error_witness :
  process_yaml_content (VDict [(SStr "models", VNone)]) "models/schema.yml" =
    Raise TypeError.
Proof.
  destruct (process_yaml_content (VDict [(SStr "models", VNone)])
              "models/schema.yml") as [r | e] eqn:E.
  - by vm_compute in E.
  - by rewrite (process_yaml_content_raises_type_error _ _ _ E).
Defined.

Lemma keys_dict_set (k : scalar) (v c : value) (d : dict) :
  dict_get k d = Some c → keys (dict_set k v d) = keys d.
Proof.
  unfold keys. induction d as [| [k' v'] d IH]; [done |].
  unfold dict_get, dict_set. fold dict_get. fold dict_set.
  destruct (scalar_eqb k' k); [done |].
  intros H. simpl. by rewrite IH.
Qed.

Lemma dict_get_set_ne (k : scalar) (s : string) (v : value) (d : dict) :
  k ≠ SStr s → dict_get k (dict_set (SStr s) v d) = dict_get k d.
Proof.
  intros Hne.
  assert (scalar_eqb (SStr s) k = false) as Hs.
  { destruct (scalar_eqb (SStr s) k) eqn:E; [| done].
    rewrite scalar_eqb_sym in E. by apply scalar_eqb_str in E. }
  induction d as [| [k' v'] d IH].
  - unfold dict_set, dict_get. by rewrite Hs.
  - unfold dict_set. fold dict_set.
    destruct (scalar_eqb k' (SStr s)) eqn:E.
    + apply scalar_eqb_str in E as ->. unfold dict_get. fold dict_get.
      by rewrite Hs.
    + unfold dict_get. fold dict_get. by rewrite IH.
Qed.

(** A chain of steps under distinct keys, on a mapping: the keys stay as
    they are, each step's key holds what the step made of the child found
    there, and every other key holds what it held. *)
Lemma chain_keys_children (kfs : list (string * step)) :
  ∀ d x' all all',
  NoDup kfs.*1 →
  chain_keys kfs (VDict d) all = Ok (x', all') →
  ∃ d', x' = VDict d' ∧ keys d' = keys d ∧
        (∀ k, (∀ kf, kf ∈ kfs → k ≠ SStr kf.1) →
              dict_get k d' = dict_get k d) ∧
        (∀ k f c, (k, f) ∈ kfs → dict_get (SStr k) d = Some c →
                  ∃ c' b b', f c b = Ok (c', b') ∧
                             dict_get (SStr k) d' = Some c').
Proof.
  induction kfs as [| [k0 f0] kfs IH]; intros d x' all all' Hnd H.
  - injection H as <- <-. exists d.
    split; [done |]. split; [done |]. split; [done |].
    intros k f c Hin. inversion Hin.
  - rewrite chain_keys_cons, at_key_dict in H. simpl in Hnd.
    apply NoDup_cons in Hnd as [Hk0 Hnd].
    assert (∀ k f, (k, f) ∈ kfs → k ≠ k0) as Hother.
    { intros k f Hin ->. apply Hk0. apply list_elem_of_fmap.
      by exists (k0, f). }
    destruct (dict_get (SStr k0) d) as [c0 |] eqn:Hc0.
    + destruct (f0 c0 all) as [[c0' a1] |] eqn:Hf0; [| done]. simpl in H.
      destruct (IH _ _ _ _ Hnd H) as (d' & -> & Hkeys & Hframe & Hch).
      exists d'. split; [done |]. split.
      { rewrite Hkeys. by eapply keys_dict_set. }
      split.
      * intros k Hk. rewrite Hframe.
        -- apply dict_get_set_ne. apply (Hk (k0, f0)). left.
        -- intros kf Hin. apply Hk. by right.
      * intros k f c Hin Hc. apply elem_of_cons in Hin as [[= -> ->] | Hin].
        -- rewrite Hc0 in Hc. injection Hc as <-.
           exists c0', all, a1. split; [done |].
           rewrite Hframe; [apply dict_get_set |].
           intros [k1 f1] Hin1 [= ->]. by apply (Hother _ _ Hin1).
        -- apply (Hch k f c Hin).
           rewrite dict_get_set_other; [done |].
           intros ->. by apply (Hother _ _ Hin).
    + simpl in H.
      destruct (IH _ _ _ _ Hnd H) as (d' & -> & Hkeys & Hframe & Hch).
      exists d'. split; [done |]. split; [done |]. split.
      * intros k Hk. apply Hframe. intros kf Hin. apply Hk. by right.
      * intros k f c Hin Hc. apply elem_of_cons in Hin as [[= -> ->] | Hin].
        -- congruence.
        -- by apply (Hch k f c Hin).
Qed.

Lemma iter_step_shape (f : step) (c c' : value) (b b' : list value) :
  appends_names f →
  iter_step f c b = Ok (c', b') →
  match c with
  | VList items => ∃ items', c' = VList items' ∧ length items' = length items
  | _ => c' = c
  end.
Proof.
  intros Hf H. unfold iter_step in H.
  destruct (py_iter c) as [items |] eqn:Hi; [| done]. simpl in H.
  destruct (for_each f items b) as [[items' a1] |] eqn:E; [| done].
  simpl in H. injection H as <- <-.
  destruct (for_each_appends f items Hf _ _ _ E) as (Hlen & _).
  destruct c as [a | l | d]; try done.
  injection Hi as ->. by exists items'.
Qed.

(** X7.  The walker keeps the shape of the document: the top-level keys
    stay in their order, every key other than the four resource keys keeps
    its value, a sequence under a resource key stays a sequence of the same
    length and any other value under a resource key is left as it is; a
    document that is not a mapping is returned unchanged. *)
Theorem process_yaml_content_shape
    (content content' : value) (names : list value) (file_path : string) :
  process_yaml_content content file_path = Ok (content', names) →
  match content with
  | VDict d =>
      ∃ d', content' = VDict d' ∧ keys d' = keys d ∧
        (∀ k, k ∉ SStr <$> RESOURCE_TYPES → dict_get k d' = dict_get k d) ∧
        (∀ rt c, rt ∈ RESOURCE_TYPES → dict_get (SStr rt) d = Some c →
           ∃ c', dict_get (SStr rt) d' = Some c' ∧
                 match c with
                 | VList items =>
                     ∃ items', c' = VList items' ∧
                               length items' = length items
                 | _ => c' = c
                 end)
  | _ => content' = content ∧ names = []
  end.
Proof.
  intros H. rewrite process_yaml_content_chain in H.
  destruct content as [a | l | d];
    [by apply chain_keys_not_dict in H | by apply chain_keys_not_dict in H |].
  apply chain_keys_children in H as (d' & -> & Hkeys & Hframe & Hch).
  - exists d'. split; [done |]. split; [done |]. split.
    + intros k Hk. apply Hframe. intros [rt f] Hin ->. apply Hk.
      unfold content_steps in Hin.
      apply list_elem_of_fmap in Hin as (rt' & [= -> _] & Hin).
      apply list_elem_of_fmap. by exists rt'.
    + intros rt c Hrt Hc.
      destruct (Hch rt (iter_step (migrate_resource rt)) c) as
        (c' & b & b' & Hstep & Hc'); [| done |].
      * unfold content_steps. apply list_elem_of_fmap. by exists rt.
      * exists c'. split; [done |].
        eapply iter_step_shape; [apply migrate_resource_appends | exact Hstep].
  - unfold content_steps. simpl. repeat constructor; set_solver.
Qed.

Lemma process_yaml_content_shape_witness :
  ∃ d', process_yaml_content document_mixed "models/schema.yml" =
          Ok (VDict d', [VStr "accepted_values"; VStr "dbt_utils.equality"]) ∧
        keys d' = [SStr "version"; SStr "models"; SStr "sources"] ∧
        dict_get (SStr "version") d' = Some (VInt 2).
Proof.
  assert (∃ c, process_yaml_content document_mixed "models/schema.yml" =
               Ok (c, [VStr "accepted_values"; VStr "dbt_utils.equality"]))
    as [c H] by (eexists; vm_compute; reflexivity).
  pose proof (process_yaml_content_shape _ _ _ _ H) as Hs.
  destruct Hs as (d' & -> & Hkeys & Hframe & _).
  exists d'. split; [exact H |]. split; [exact Hkeys |].
  rewrite Hframe; [reflexivity |].
  intros Hin. apply list_elem_of_In in Hin. simpl in Hin.
  destruct Hin as [Hin | [Hin | [Hin | [Hin | []]]]]; discriminate Hin.
Defined.

(** ** The helper of the test suite *)

Lemma find_test_skip (name : string) (pre rest : list value) :
  no_key_in name pre → find_test (pre ++ rest) name = find_test rest name.
Proof.
  induction 1 as [| x pre Hx _ IH]; [done |].
  simpl app. unfold find_test. fold find_test.
  destruct x as [a | l | d]; try done.
  unfold py_in. by rewrite (Hx d eq_refl).
Qed.

Lemma find_test_here (name : string) (d : dict) (v : value)
    (rest : list value) :
  dict_get (SStr name) d = Some v → find_test (VDict d :: rest) name = v.
Proof.
  intros H. unfold find_test. fold find_test. unfold py_in, py_getitem.
  assert (dict_contains (SStr name) d = true) as ->
    by (apply dict_contains_get; eauto).
  by rewrite H.
Qed.

Lemma dict_contains_set_inv (k k' : scalar) (v : value) (d : dict) :
  dict_contains k (dict_set k' v d) = true →
  dict_contains k d = true ∨ scalar_eqb k' k = true.
Proof.
  unfold dict_contains. induction d as [| [k1 v1] d IH]; simpl.
  - rewrite orb_false_r. auto.
  - destruct (scalar_eqb k1 k') eqn:E; simpl; [auto |].
    destruct (scalar_eqb k1 k); simpl; [auto |]. exact IH.
Qed.

Lemma migrate_items_keys (k : scalar) (items : dict) :
  ∀ new_dict arguments,
  dict_contains k (migrate_items items new_dict arguments).1 = true →
  dict_contains k new_dict = true ∨ dict_contains k items = true.
Proof.
  induction items as [| [k1 v1] items IH]; intros nd args H; simpl in H.
  - by left.
  - unfold dict_contains at 2. simpl. fold (dict_contains k items).
    destruct (key_in k1 reserved_keys).
    + apply IH in H as [H | H]; [| right; by rewrite H, orb_true_r].
      apply dict_contains_set_inv in H as [H | H]; [by left |].
      right. by rewrite H.
    + apply IH in H as [H | H]; [by left |].
      right. by rewrite H, orb_true_r.
Qed.

(** The keys of a restructured mapping are keys of the mapping, or
    [arguments]. *)
Lemma migrate_test_dict_keys (s : string) (d d' : dict) :
  migrate_test_dict (VDict d) = VDict d' →
  dict_contains (SStr s) d' = true →
  dict_contains (SStr s) d = true ∨ s = "arguments".
Proof.
  unfold migrate_test_dict.
  destruct (needs_migration (VDict d)); cbn [negb];
    [| intros [= <-]; by left].
  pose proof (migrate_items_keys (SStr s) d [] []) as Hk.
  destruct (migrate_items d [] []) as [nd args]. simpl in Hk.
  destruct (truthy (VDict args)); intros [= <-] H.
  - apply dict_contains_set_inv in H as [H | H].
    + apply Hk in H as [H | H]; [done | by left].
    + right. apply String.eqb_eq in H. done.
  - apply Hk in H as [H | H]; [done | by left].
Qed.

Lemma process_entry_keeps_no_key (name : string) (test test' : value)
    (names : list value) :
  name ≠ "arguments" →
  process_entry test = Ok (test', names) →
  (∀ d, test = VDict d → dict_contains (SStr name) d = false) →
  ∀ d', test' = VDict d' → dict_contains (SStr name) d' = false.
Proof.
  intros Hname H Hno d' ->.
  apply process_entry_changed in H as [[<- _] | (_ & Hrep & _)];
    [by apply Hno |].
  unfold replacement in Hrep.
  destruct test as [a | l | d]; try (by unfold migrate_test_dict in Hrep).
  assert (dict_contains (SStr name) d = false) as Hd by (by apply Hno).
  destruct d as [| [k v] [| kv d]]; [| by injection Hrep as -> |];
    (destruct (dict_contains (SStr name) d') eqn:E; [| done];
     symmetry in Hrep;
     apply (migrate_test_dict_keys name _ _ Hrep) in E as [E | E];
     congruence).
Qed.

Lemma process_test_list_keeps_no_key (name : string)
    (pre out names : list value) :
  name ≠ "arguments" →
  process_test_list pre = Ok (out, names) →
  no_key_in name pre → no_key_in name out.
Proof.
  intros Hname H Hno.
  apply process_test_list_entries in H as (rs & Hrs & -> & _).
  unfold no_key_in in *. revert Hno.
  induction Hrs as [| test [t ns] l rs Hr _ IH]; intros Hno; [constructor |].
  apply Forall_cons in Hno as [Hx Hno]. rewrite fmap_cons.
  constructor; [| by apply IH].
  simpl. by eapply process_entry_keeps_no_key.
Qed.

(** X4.  What the test suite checks with [find_test], for any check list:
    if the first mapping with the key [name] is a declaration
    [{name: fields}] of a generic check whose fields need migration, then
    after [process_test_list] the helper finds, under the same name, the
    restructured fields; they have an [arguments] key, which (the keys of
    [fields] being distinct) holds the fields that are not reserved. *)
Theorem find_test_after_migration
    (name : string) (fields : dict) (pre post out names : list value) :
  no_key_in name pre →
  is_generic_test (VStr name) = Ok true →
  needs_migration (VDict fields) = true →
  process_test_list (pre ++ VDict [(SStr name, VDict fields)] :: post) =
    Ok (out, names) →
  find_test (pre ++ VDict [(SStr name, VDict fields)] :: post) name =
    VDict fields ∧
  find_test out name = migrate_test_dict (VDict fields) ∧
  (∃ d', migrate_test_dict (VDict fields) = VDict d' ∧
         has_key "arguments" d' ∧
         (dict_wf fields = true →
          dict_get (SStr "arguments") d' = Some (VDict (moved_fields fields))))
  ∧ VStr name ∈ names.
Proof.
  intros Hno Hgen Hneed H.
  assert (name ≠ "arguments") as Hname by (intros ->; by vm_compute in Hgen).
  split.
  { rewrite find_test_skip by done. apply find_test_here.
    unfold dict_get. by rewrite scalar_eqb_refl. }
  rewrite process_test_list_app_eq in H.
  destruct (process_test_list pre) as [[o1 n1] |] eqn:E1; [| done].
  simpl in H.
  change (VDict [(SStr name, VDict fields)] :: post)
    with ([VDict [(SStr name, VDict fields)]] ++ post) in H.
  rewrite process_test_list_app_eq in H.
  assert (process_test_list [VDict [(SStr name, VDict fields)]] =
          Ok ([VDict [(SStr name, migrate_test_dict (VDict fields))]],
              [VStr name])) as E2.
  { unfold process_test_list, process_tests.
    rewrite process_test_entry, process_entry_unfold, Hgen. simpl.
    by rewrite Hneed. }
  rewrite E2 in H. simpl in H.
  destruct (process_test_list post) as [[o2 n2] |]; [| done]. simpl in H.
  injection H as <- <-.
  split; [| split].
  - rewrite find_test_skip
      by (by apply (process_test_list_keeps_no_key name pre o1 n1)).
    apply find_test_here. unfold dict_get. by rewrite scalar_eqb_refl.
  - destruct (migrate_test_dict_has_arguments fields Hneed) as (d' & Hd & Hc).
    exists d'. split; [done |]. split; [by apply dict_contains_keys |].
    intros Hwf. rewrite migrate_test_dict_unique in Hd by done.
    injection Hd as <-.
    rewrite dict_get_app.
    assert (dict_get (SStr "arguments") (kept_fields fields) = None) as ->.
    { destruct (dict_get _ _) eqn:E; [| done].
      assert (dict_contains (SStr "arguments") (kept_fields fields) = true)
        as Hk by (apply dict_contains_get; eauto).
      by rewrite kept_fields_no_arguments in Hk. }
    done.
  - apply elem_of_app. right. left.
Qed.

Lemma find_test_after_migration_witness :
  find_test
    [VStr "unique"; VStr "not_null";
     VDict [(SStr "accepted_values",
             VDict [(SStr "config", VDict [(SStr "where", VStr "x")]);
                    (SStr "arguments",
                     VDict [(SStr "values", VList [VStr "a"; VStr "b"])])])]]
    "accepted_values" = migrate_test_dict (VDict scenario_A_fields).
Proof.
  refine (proj1 (proj2 (find_test_after_migration "accepted_values"
            scenario_A_fields [VStr "unique"; VStr "not_null"] [] _ _
            _ _ _ _))).
  - repeat constructor; by intros d [=].
  - reflexivity.
  - reflexivity.
  - vm_compute. reflexivity.
Defined.

(** ** The driver, again *)

Section DriverExtras.

Variable safe_load : string → result value.
Variable yaml_dump : value → string.
Variable join_set : list value → string.
Variable glob : world → string → string → list string.

#[local] Abbreviation body := (migrate_file_body safe_load yaml_dump join_set).
#[local] Abbreviation migrate := (migrate_file safe_load yaml_dump join_set).
#[local] Abbreviation run_files := (migrate_files safe_load yaml_dump join_set).
#[local] Abbreviation run :=
  (run_migration safe_load yaml_dump join_set glob).
#[local] Abbreviation paths :=
  (migrate_file_body_paths safe_load yaml_dump join_set).
#[local] Abbreviation caught :=
  (migrate_file_caught safe_load yaml_dump join_set).

(** What the [try] block adds to the console and to the report: when it
    raises it has printed nothing. *)
Lemma migrate_file_body_logs (file_path : string) (st : state) :
  let r := (body file_path st).1 in
  let st' := (body file_path st).2 in
  match r with
  | Raise _ => console (os st') = console (os st)
  | Ok _ => ∃ evs, console (os st') = console (os st) ++ evs ∧
                   (length evs ≤ 1)%nat
  end ∧
  ∃ ms, migrations_performed (self st') =
          migrations_performed (self st) ++ ms ∧ (length ms ≤ 1)%nat ∧
        (r = Ok true → length ms = 1%nat) ∧
        (console_reliable (os st) →
         dry_run (self st) = true ∨
           (read_only (os st) = ∅ ∧ writes_reliable (os st)) →
         length ms = 1%nat → r = Ok true).
Proof.
  cbv zeta. rewrite paths.
  assert (∀ r s,
            console (os s) = console (os st) →
            migrations_performed (self s) = migrations_performed (self st) →
            r ≠ Ok true →
            match r with
            | Raise _ => console (os s) = console (os st)
            | Ok _ => ∃ evs, console (os s) = console (os st) ++ evs ∧
                             (length evs ≤ 1)%nat
            end ∧
            ∃ ms, migrations_performed (self s) =
                    migrations_performed (self st) ++ ms ∧
                  (length ms ≤ 1)%nat ∧
                  ((r : result bool) = Ok true → length ms = 1%nat) ∧
                  (console_reliable (os st) →
                   dry_run (self st) = true ∨
                     (read_only (os st) = ∅ ∧ writes_reliable (os st)) →
                   length ms = 1%nat → r = Ok true)) as Hquiet.
  { intros r s Hc Hm Hr. split.
    - destruct r; [| done]. exists []. rewrite app_nil_r.
      split; [done | simpl; lia].
    - exists []. rewrite app_nil_r. repeat split; try done; simpl; lia. }
  destruct (files (os st) !! file_path) as [text |]; [| by apply Hquiet].
  destruct (safe_load text) as [content | e].
  2: { destruct e; try (by apply Hquiet). unfold print.
       destruct (stdout_error _ _ _) eqn:Hso; [by apply Hquiet |].
       cbn [fst snd]. split.
       - eexists [_]. split; [reflexivity | simpl; lia].
       - exists []. rewrite app_nil_r. repeat split; try done; simpl; lia. }
  destruct (truthy content); cbn [negb]; [| by apply Hquiet].
  destruct (process_yaml_content content file_path) as [[mc mt] | e];
    [| by apply Hquiet].
  destruct (truthy (VList mt)); cbn [negb]; [| by apply Hquiet].
  cbv zeta.
  set (m := report join_set file_path mt).
  assert (∀ (r : result bool) s,
            migrations_performed (self s) =
              migrations_performed (self st) ++ [m] →
            (console_reliable (os st) →
             dry_run (self st) = true ∨
               (read_only (os st) = ∅ ∧ writes_reliable (os st)) →
             r = Ok true) →
            ∃ ms, migrations_performed (self s) =
                    migrations_performed (self st) ++ ms ∧
                  (length ms ≤ 1)%nat ∧
                  (r = Ok true → length ms = 1%nat) ∧
                  (console_reliable (os st) →
                   dry_run (self st) = true ∨
                     (read_only (os st) = ∅ ∧ writes_reliable (os st)) →
                   length ms = 1%nat → r = Ok true)) as Hone.
  { intros r s Hm Hr. exists [m]. repeat split; try done; simpl; try lia.
    auto. }
  destruct (dry_run (self st)) eqn:Hdry.
  - unfold print.
    destruct (stdout_error _ _ _) eqn:Hso; cbn [fst snd].
    + split; [done |]. apply Hone; [done |]. intros Hrel _.
      cbn in Hso. by rewrite Hrel in Hso.
    + split; [eexists [_]; split; [reflexivity | simpl; lia] |].
      by apply Hone.
  - unfold write_text. cbn [recorded os read_only].
    destruct (bool_decide (file_path ∈ read_only (os st))) eqn:Hro.
    + cbn [fst snd]. split; [done |]. apply Hone; [done |].
      intros _ [? | [Hempty _]]; [done |].
      apply bool_decide_eq_true in Hro. rewrite Hempty in Hro. set_solver.
    + destruct (write_error _ _ _) as [[e remains] |] eqn:Hwe.
      * cbn [fst snd]. split; [done |]. apply Hone; [done |].
        intros _ [? | [_ Hw]]; [done |]. cbn in Hwe. by rewrite Hw in Hwe.
      * unfold print.
        destruct (stdout_error _ _ _) eqn:Hso; cbn [fst snd].
        -- split; [done |]. apply Hone; [done |]. intros Hrel _.
           cbn in Hso. by rewrite Hrel in Hso.
        -- split; [eexists [_]; split; [reflexivity | simpl; lia] |].
           by apply Hone.
Qed.

(** What one call adds to the console and to the report. *)
Lemma migrate_file_logs (file_path : string) (st : state) :
  let st' := (migrate file_path st).2 in
  (∃ evs, console (os st') = console (os st) ++ evs ∧ (length evs ≤ 1)%nat) ∧
  (∃ ms, migrations_performed (self st') =
           migrations_performed (self st) ++ ms ∧ (length ms ≤ 1)%nat ∧
         ((migrate file_path st).1 = Ok true → length ms = 1%nat) ∧
         (console_reliable (os st) →
          dry_run (self st) = true ∨
            (read_only (os st) = ∅ ∧ writes_reliable (os st)) →
          length ms = 1%nat → (migrate file_path st).1 = Ok true)).
Proof.
  cbv zeta. rewrite caught.
  destruct (migrate_file_body_logs file_path st)
    as (Hc & ms & Hms & Hlen & Ht & Hf).
  destruct (body file_path st) as [[b | e] st1]; cbn [fst snd] in *.
  - split; [done |]. by exists ms.
  - assert (∃ evs, console (os (print (PrintError file_path e) st1).2) =
                     console (os st) ++ evs ∧ (length evs ≤ 1)%nat) as Hc'.
    { unfold print. destruct (stdout_error _ _ _); cbn [snd].
      - exists []. rewrite app_nil_r. split; [done | simpl; lia].
      - exists [PrintError file_path e]. simpl. rewrite Hc.
        split; [done | lia]. }
    assert (migrations_performed (self (print (PrintError file_path e) st1).2)
            = migrations_performed (self st1)) as Hm'
      by (unfold print; by destruct (stdout_error _ _ _)).
    destruct (print _ st1) as [[[] | e'] st2]; cbn [fst snd] in *.
    + split; [done |]. exists ms. rewrite Hm'. repeat split; try done.
      intros Hrel Hw Hl. by specialize (Hf Hrel Hw Hl).
    + split; [done |]. exists ms. rewrite Hm'. repeat split; try done.
      intros Hrel Hw Hl. by specialize (Hf Hrel Hw Hl).
Qed.

(** X8.  One call of [migrate_file] never touches another file, the
    directories, the write permissions or the migrator's settings; it adds
    at most one line to the console and at most one entry to the report,
    and never removes any. *)
Theorem migrate_file_footprint (file_path : string) (st : state) :
  let st' := (migrate file_path st).2 in
  (∀ other, other ≠ file_path →
            files (os st') !! other = files (os st) !! other) ∧
  dirs (os st') = dirs (os st) ∧
  read_only (os st') = read_only (os st) ∧
  dry_run (self st') = dry_run (self st) ∧
  models_dir (self st') = models_dir (self st) ∧
  (∃ evs, console (os st') = console (os st) ++ evs ∧ (length evs ≤ 1)%nat) ∧
  (∃ ms, migrations_performed (self st') =
           migrations_performed (self st) ++ ms ∧ (length ms ≤ 1)%nat).
Proof.
  destruct (migrate_file_frame safe_load yaml_dump join_set file_path st)
    as (Hd & Hm & Hdirs & Hro & _ & Ho).
  destruct (migrate_file_logs file_path st)
    as (Hc & ms & Hms & Hlen & _).
  cbv zeta. repeat (split; [done |]). by exists ms.
Qed.

Lemma migrate_file_true_inv (yaml_file : string) (st st' : state) :
  migrate yaml_file st = (Ok true, st') →
  ∃ text content migrated_content migrated_tests,
    files (os st) !! yaml_file = Some text ∧
    safe_load text = Ok content ∧
    truthy content = true ∧
    process_yaml_content content yaml_file =
      Ok (migrated_content, migrated_tests) ∧
    migrated_tests ≠ [] ∧
    (dry_run (self st) = true ∨
     ((yaml_file ∉ read_only (os st)) ∧
      write_error (os st) yaml_file (yaml_dump migrated_content) = None)) ∧
    stdout_error (os st) (console (os st))
      (PrintMigrated (dry_run (self st)) (length migrated_tests) yaml_file)
      = None ∧
    st' =
      printed
        (PrintMigrated (dry_run (self st)) (length migrated_tests) yaml_file)
        ((if dry_run (self st) then id
          else written yaml_file (yaml_dump migrated_content))
           (recorded (report join_set yaml_file migrated_tests) st)).
Proof.
  rewrite caught, paths.
  destruct (files (os st) !! yaml_file) as [text |] eqn:Hf.
  2: { by destruct (print _ st) as [[[] | e] s]. }
  destruct (safe_load text) as [content | e] eqn:Hl.
  2: { destruct e; try (by destruct (print _ st) as [[[] | e] s]).
       destruct (print _ st) as [[[] | e] s]; [done |].
       by destruct (print _ s) as [[[] | e'] s']. }
  destruct (truthy content) eqn:Ht; cbn [negb]; [| done].
  destruct (process_yaml_content content yaml_file) as [[mc mt] | e] eqn:Hp.
  2: { by destruct (print _ st) as [[[] | e'] s]. }
  destruct (truthy (VList mt)) eqn:Hmt; cbn [negb]; [| done].
  assert (mt ≠ []) by (by destruct mt).
  cbv zeta. destruct (dry_run (self st)) eqn:Hdry.
  - unfold print at 1.
    destruct (stdout_error _ _ _) eqn:Hso; cbn [fst snd].
    + by destruct (print _ _) as [[[] | e'] s].
    + intros [= <-]. exists text, content, mc, mt. repeat split; auto.
  - unfold write_text. cbn [recorded os read_only].
    destruct (bool_decide (yaml_file ∈ read_only (os st))) eqn:Hro.
    { by destruct (print _ _) as [[[] | e'] s]. }
    apply bool_decide_eq_false in Hro.
    destruct (write_error _ _ _) as [[e remains] |] eqn:Hwe.
    { by destruct (print _ _) as [[[] | e'] s]. }
    unfold print at 1.
    destruct (stdout_error _ _ _) eqn:Hso; cbn [fst snd].
    + by destruct (print _ _) as [[[] | e'] s].
    + intros [= <-]. exists text, content, mc, mt. repeat split; auto.
Qed.


(** X10.  A file with nothing to migrate (an empty document, or a document
    for which the walker reports no name) is skipped without a trace:
    [migrate_file] answers [False] and the state is exactly what it was. *)
Theorem migrate_file_nothing_to_do
    (file_path text : string) (st : state) (content : value) :
  files (os st) !! file_path = Some text →
  safe_load text = Ok content →
  truthy content = false ∨
    (∃ migrated_content,
       process_yaml_content content file_path = Ok (migrated_content, [])) →
  migrate file_path st = (Ok false, st).
Proof.
  intros Hf Hl H. rewrite caught, paths, Hf, Hl.
  destruct (truthy content) eqn:Ht; cbn [negb]; [| done].
  destruct H as [? | [mc ->]]; done.
Qed.

(** X11.  Migrating the same file again changes nothing, provided the
    loader reads back what the dumper wrote: when a call made without
    [dry_run] answers [True] on a document whose mappings have distinct
    keys, the next call on that file answers [False] and leaves the state
    as it is. *)
Theorem migrate_file_twice
    (file_path text : string) (st st' : state) (content : value) :
  files (os st) !! file_path = Some text →
  safe_load text = Ok content →
  value_wf content = true →
  (∀ migrated names,
     process_yaml_content content file_path = Ok (migrated, names) →
     safe_load (yaml_dump migrated) = Ok migrated) →
  dry_run (self st) = false →
  migrate file_path st = (Ok true, st') →
  migrate file_path st' = (Ok false, st').
Proof.
  intros Hf Hl Hwf Hround Hdry H.
  apply migrate_file_true_inv in H
    as (text' & content' & mc & mt & Hf' & Hl' & Ht & Hp & Hne & Hw & _ & ->).
  rewrite Hf in Hf'. injection Hf' as <-.
  rewrite Hl in Hl'. injection Hl' as <-.
  rewrite Hdry.
  match goal with |- migrate _ ?s = _ => set (st1 := s) end.
  assert (files (os st1) !! file_path = Some (yaml_dump mc)) as Hf1
    by (simpl; apply lookup_insert_eq).
  rewrite caught, paths, Hf1, (Hround _ _ Hp).
  assert (process_yaml_content mc file_path = Ok (mc, [])) as ->.
  { rewrite process_yaml_content_chain in *.
    by apply (content_steps_settle content Hwf [] mc mt). }
  by destruct (truthy mc).
Qed.

(** X12.  With a console that takes every line, the loop over the files
    runs to its end; the count of migrated files it returns grows by at
    most one per file and by no more than the report does, and by exactly
    as much as the report when [dry_run] is set or every write goes
    through. *)
Theorem migrate_files_count (yaml_files : list string) (n : nat)
    (st : state) :
  console_reliable (os st) →
  ∃ k st', run_files yaml_files n st = (Ok k, st') ∧
    (n ≤ k ≤ n + length yaml_files)%nat ∧
    ∃ ms, migrations_performed (self st') =
            migrations_performed (self st) ++ ms ∧
          (k - n ≤ length ms ≤ length yaml_files)%nat ∧
          (dry_run (self st) = true ∨
             (read_only (os st) = ∅ ∧ writes_reliable (os st)) →
           length ms = (k - n)%nat).
Proof.
  revert n st. induction yaml_files as [| p rest IH]; intros n st Hrel.
  - exists n, st. split; [done |]. split; [simpl; lia |].
    exists []. rewrite app_nil_r. split; [done |]. split; [simpl; lia |].
    intros _. simpl. lia.
  - destruct (migrate_file_total safe_load yaml_dump join_set p st Hrel)
      as (b & st1 & E).
    destruct (migrate_file_logs p st) as (_ & ms1 & Hms1 & Hlen1 & Ht & Hf).
    pose proof (migrate_file_touches safe_load yaml_dump join_set p st)
      as Htouch.
    rewrite E in *. cbn [fst snd] in Hms1, Ht, Hf, Htouch.
    assert (console_reliable (os st1)) as Hrel1
      by (by eapply touches_reliable).
    destruct Htouch as (Hd & _ & _ & Hro & _ & Hwe & _).
    destruct (IH (if b then S n else n) st1 Hrel1)
      as (k & st' & E' & Hk & ms & Hms & Hlen & Heq).
    exists k, st'. split.
    { simpl. unfold mbind, io_bind. by rewrite E. }
    split; [destruct b; simpl; lia |].
    exists (ms1 ++ ms). split; [by rewrite Hms, Hms1, app_assoc |].
    rewrite length_app.
    assert (b = true → length ms1 = 1%nat) as Ht' by (intros ->; by apply Ht).
    assert (dry_run (self st) = true ∨
              (read_only (os st) = ∅ ∧ writes_reliable (os st)) →
            length ms1 = 1%nat → b = true) as Hf'.
    { intros Hc Hl. specialize (Hf Hrel Hc Hl). by injection Hf. }
    split.
    + destruct b; [specialize (Ht' eq_refl) |]; simpl; lia.
    + intros Hc. rewrite Heq.
      2: { unfold writes_reliable. rewrite Hd, Hro, Hwe. exact Hc. }
      specialize (Hf' Hc).
      destruct b; [specialize (Ht' eq_refl); lia |].
      assert (length ms1 = 0%nat);
        [destruct ms1 as [| m [| ? ?]]; simpl in *;
           [done | by specialize (Hf' eq_refl) | lia] | lia].
Qed.


End DriverExtras.


Lemma migrate_file_nothing_to_do_witness :
  migrate_file (load_as (model_with [VStr "unique"; migrated_declaration]))
    dump_stub join_stub "models/schema.yml" (demo_state false) =
    (Ok false, demo_state false).
Proof.
  apply (migrate_file_nothing_to_do _ dump_stub join_stub
           "models/schema.yml" "models: ..." (demo_state false)
           (model_with [VStr "unique"; migrated_declaration]));
    [reflexivity | reflexivity |].
  right. eexists. vm_compute. reflexivity.
Defined.

Lemma migrate_file_twice_witness :
  ∃ st',
    migrate_file load_demo dump_stub join_stub "models/schema.yml"
      (demo_state false) = (Ok true, st') ∧
    migrate_file load_demo dump_stub join_stub "models/schema.yml" st' =
      (Ok false, st').
Proof.
  eexists. split; [vm_compute; reflexivity |].
  apply (migrate_file_twice load_demo dump_stub join_stub
           "models/schema.yml" "models: ..." (demo_state false) _
           document_good).
  - reflexivity.
  - reflexivity.
  - reflexivity.
  - intros migrated names H. vm_compute in H. injection H as <- _.
    vm_compute. reflexivity.
  - reflexivity.
  - vm_compute. reflexivity.
Defined.

Lemma migrate_files_count_witness :
  ∃ st',
    migrate_files load_demo dump_stub join_stub ["models/schema.yml"] 0
      (demo_state false) = (Ok 1%nat, st') ∧
    length (migrations_performed (self st')) = 1%nat.
Proof.
  destruct (migrate_files_count load_demo dump_stub join_stub
              ["models/schema.yml"] 0 (demo_state false))
    as (k & st' & E & Hk & ms & Hms & Hlen & Heq); [done |].
  assert (∃ s, migrate_files load_demo dump_stub join_stub
                 ["models/schema.yml"] 0 (demo_state false) = (Ok 1%nat, s))
    as [s Hs] by (eexists; vm_compute; reflexivity).
  rewrite Hs in E. injection E as <- <-.
  exists s. split; [done |].
  rewrite Hms. simpl. rewrite Heq; [done |]. right. split; done.
Defined.



(** ** The places the walker reaches *)

Lemma for_each_lookup (f : step) (items : list value) :
  ∀ all items' all' i x,
  for_each f items all = Ok (items', all') → items !! i = Some x →
  ∃ x' b b', f x b = Ok (x', b') ∧ items' !! i = Some x'.
Proof.
  induction items as [| y items IH]; intros all items' all' i x H Hi;
    [done |].
  simpl in H. destruct (f y all) as [[y1 a1] |] eqn:E; [| done].
  simpl in H.
  destruct (for_each f items a1) as [[rest a2] |] eqn:E'; [| done].
  simpl in H. injection H as <- <-.
  destruct i as [| i]; simpl in Hi.
  - injection Hi as ->. by exists y1, all, a1.
  - destruct (IH _ _ _ _ _ E' Hi) as (x' & b & b' & Hf & Hx).
    by exists x', b, b'.
Qed.

Lemma chain_keys_child (kfs : list (string * step)) (k : string) (f : step)
    (x x' c : value) (all all' : list value) :
  NoDup kfs.*1 → (k, f) ∈ kfs →
  chain_keys kfs x all = Ok (x', all') → child k x = Some c →
  ∃ c' b b', f c b = Ok (c', b') ∧ child k x' = Some c'.
Proof.
  intros Hnd Hin H Hc. destruct x as [a | l | d]; try done.
  apply chain_keys_children in H as (d' & -> & _ & _ & Hch); [| done].
  by apply (Hch k f c).
Qed.

Lemma chain_keys_lists_done (kfs : list (string * step)) (x x' : value)
    (all all' : list value) :
  NoDup kfs.*1 →
  (∀ key, key ∈ TEST_KEYS → (key, tests_step) ∈ kfs) →
  chain_keys kfs x all = Ok (x', all') → lists_done x x'.
Proof.
  intros Hnd Hkeys H key l Hkey Hc.
  destruct (chain_keys_child kfs key tests_step x x' _ all all' Hnd
              (Hkeys key Hkey) H Hc) as (c' & b & b' & Hstep & Hc').
  unfold tests_step in Hstep.
  destruct (process_test_list l) as [[out ns] |]; [| done].
  simpl in Hstep. injection Hstep as <- _. by exists out, ns.
Qed.

Lemma node_steps_nodup : NoDup node_steps.*1.
Proof. unfold node_steps. simpl. repeat constructor; set_solver. Qed.

Lemma table_steps_nodup : NoDup table_steps.*1.
Proof.
  unfold table_steps, node_steps. simpl. repeat constructor; set_solver.
Qed.

Lemma resource_steps_nodup (rt : string) : NoDup (resource_steps rt).*1.
Proof.
  unfold resource_steps, table_steps, node_steps.
  destruct (String.eqb rt "sources"); simpl; repeat constructor; set_solver.
Qed.

Lemma test_keys_in_node_steps (key : string) :
  key ∈ TEST_KEYS → (key, tests_step) ∈ node_steps.
Proof.
  unfold TEST_KEYS, node_steps. intros H.
  repeat (apply elem_of_cons in H as [-> | H]; [set_solver |]).
  inversion H.
Qed.

Lemma migrate_node_tests_lists_done (x x' : value) (all all' : list value) :
  migrate_node_tests x all = Ok (x', all') → lists_done x x'.
Proof.
  rewrite migrate_node_tests_chain.
  apply chain_keys_lists_done; [apply node_steps_nodup |].
  apply test_keys_in_node_steps.
Qed.

Lemma chain_keys_columns_done (kfs : list (string * step)) (x x' : value)
    (all all' : list value) :
  NoDup kfs.*1 →
  ("columns", list_step migrate_node_tests) ∈ kfs →
  chain_keys kfs x all = Ok (x', all') → columns_done x x'.
Proof.
  intros Hnd Hin H j column Hc.
  destruct (child "columns" x) as [c |] eqn:Hcols; [| done]. simpl in Hc.
  destruct (chain_keys_child kfs _ _ x x' c all all' Hnd Hin H Hcols)
    as (c' & b & b' & Hstep & Hc').
  destruct c as [a | cols | d]; try done. unfold list_step in Hstep.
  destruct (for_each migrate_node_tests cols b) as [[cols' a1] |] eqn:E;
    [| done].
  simpl in Hstep. injection Hstep as <- _.
  destruct (for_each_lookup _ _ _ _ _ _ _ E Hc) as (col' & b1 & b2 & Hf & Hj).
  exists col'. rewrite Hc'. split; [done |].
  by eapply migrate_node_tests_lists_done.
Qed.

Lemma table_steps_done (x x' : value) (all all' : list value) :
  chain_keys table_steps x all = Ok (x', all') → table_done x x'.
Proof.
  intros H. split.
  - eapply chain_keys_lists_done; [apply table_steps_nodup | | exact H].
    intros key Hkey. unfold table_steps. apply elem_of_app. left.
    by apply test_keys_in_node_steps.
  - eapply chain_keys_columns_done; [apply table_steps_nodup | | exact H].
    unfold table_steps. set_solver.
Qed.

Lemma migrate_resource_done (rt : string) (x x' : value)
    (all all' : list value) :
  migrate_resource rt x all = Ok (x', all') → resource_done rt x x'.
Proof.
  rewrite migrate_resource_chain. intros H. split; [split |].
  - eapply chain_keys_lists_done; [apply resource_steps_nodup | | exact H].
    intros key Hkey. unfold resource_steps, table_steps.
    apply elem_of_app. left. apply elem_of_app. left.
    by apply test_keys_in_node_steps.
  - eapply chain_keys_columns_done; [apply resource_steps_nodup | | exact H].
    unfold resource_steps, table_steps. set_solver.
  - intros -> j table Hc.
    destruct (child "tables" x) as [c |] eqn:Htabs; [| done]. simpl in Hc.
    destruct (chain_keys_child (resource_steps "sources") "tables"
                (iter_step migrate_table) x x' c all all'
                (resource_steps_nodup _)) as (c' & b & b' & Hstep & Hc');
      [unfold resource_steps; set_solver | done | done |].
    destruct c as [a | tabs | d]; try done. unfold iter_step in Hstep.
    simpl in Hstep.
    destruct (for_each migrate_table tabs b) as [[tabs' a1] |] eqn:E;
      [| done].
    simpl in Hstep. injection Hstep as <- _.
    destruct (for_each_lookup _ _ _ _ _ _ _ E Hc) as (t' & b1 & b2 & Hf & Hj).
    exists t'. rewrite Hc'. split; [done |].
    rewrite migrate_table_chain in Hf. by eapply table_steps_done.
Qed.

(** X15.  The walker reaches every check list at the known places: for each
    of the four resource keys and each resource in the sequence under it,
    the lists under [tests] and [data_tests] of the resource, of each of
    its columns and, for sources, of each of its tables and of each column
    of a table, hold in the result what [process_test_list] returns for
    them. *)
Theorem process_yaml_content_reaches
    (content content' : value) (names : list value) (file_path : string) :
  process_yaml_content content file_path = Ok (content', names) →
  ∀ rt i resource,
    rt ∈ RESOURCE_TYPES →
    child rt content ≫= item i = Some resource →
    ∃ resource', child rt content' ≫= item i = Some resource' ∧
                 resource_done rt resource resource'.
Proof.
  intros H rt i resource Hrt Hc. rewrite process_yaml_content_chain in H.
  destruct (child rt content) as [c |] eqn:Hres; [| done]. simpl in Hc.
  destruct (chain_keys_child content_steps rt
              (iter_step (migrate_resource rt)) content content' c []
              names) as (c' & b & b' & Hstep & Hc'); [| | done | done |].
  - unfold content_steps. simpl. repeat constructor; set_solver.
  - unfold content_steps. apply list_elem_of_fmap. by exists rt.
  - destruct c as [a | rs | d]; try done. unfold iter_step in Hstep.
    simpl in Hstep.
    destruct (for_each (migrate_resource rt) rs b) as [[rs' a1] |] eqn:E;
      [| done].
    simpl in Hstep. injection Hstep as <- _.
    destruct (for_each_lookup _ _ _ _ _ _ _ E Hc) as (r' & b1 & b2 & Hf & Hj).
    exists r'. rewrite Hc'. split; [done |].
    by eapply migrate_resource_done.
Qed.

Lemma process_yaml_content_reaches_witness :
  ∃ content' names resource resource',
    process_yaml_content document_mixed "models/schema.yml" =
      Ok (content', names) ∧
    child "sources" document_mixed ≫= item 0 = Some resource ∧
    child "sources" content' ≫= item 0 = Some resource' ∧
    resource_done "sources" resource resource'.
Proof.
  assert (∃ c n, process_yaml_content document_mixed "models/schema.yml" =
                   Ok (c, n)) as (c & n & H)
    by (do 2 eexists; vm_compute; reflexivity).
  assert (∃ r, child "sources" document_mixed ≫= item 0 = Some r) as [r Hr]
    by (eexists; vm_compute; reflexivity).
  destruct (process_yaml_content_reaches _ _ _ _ H "sources" 0%nat r)
    as (r' & Hr' & Hdone).
  - unfold RESOURCE_TYPES. set_solver.
  - exact Hr.
  - by exists c, n, r, r'.
Defined.
